(** * how_much.py: the scraper of car.gr listings, embedded in Rocq

    The development follows [how_much.py]: the pieces of the Python
    runtime the scraper calls ([str] methods, [int], [float], [re.sub],
    [str.format], list indexing) come first, then the four functions of
    the scraper ([normalize_url], [get_page_bikes], [get_last_page_number],
    [get_data]), then the properties.

    Python values are modelled as the interpreter has them: a [str] is a
    sequence of code points, an [int] is unbounded ([Z]), a [float] is an
    IEEE 754 binary64 number ([spec_float] at precision 53), and a call
    either returns or raises. *)

From Stdlib Require Import ZArith NArith Bool Ascii String List Sorted Lia.
From Stdlib Require Import Floats.SpecFloat.
Import ListNotations.

Local Open Scope Z_scope.

(** ** Exceptions and results *)

(** The exception classes that the scraper can meet.  [Unsupported] is not
    a Python exception: it marks the replacement fields of [str.format]
    that the model does not interpret (conversions, format specs,
    attribute and index lookups). *)
Inductive exn : Type :=
| ValueError
| IndexError
| NameError
| AttributeError
| KeyError
| OverflowError
| URLError
| SystemExit (code : Z)
| Unsupported.

Inductive result (A : Type) : Type :=
| Ok (a : A)
| Raise (e : exn).

Arguments Ok {A} a.
Arguments Raise {A} e.

Definition bind {A B : Type} (r : result A) (k : A -> result B) : result B :=
  match r with
  | Ok a => k a
  | Raise e => Raise e
  end.

Declare Scope py_scope.
Delimit Scope py_scope with py.
Notation "x <- r ;; k" := (bind r (fun x => k))
  (at level 61, r at next level, right associativity) : py_scope.
Notation "' pat <- r ;; k" := (bind r (fun x => match x with pat => k end))
  (at level 61, pat pattern, r at next level, right associativity) : py_scope.
Local Open Scope py_scope.

Definition exn_eqb (a b : exn) : bool :=
  match a, b with
  | ValueError, ValueError | IndexError, IndexError | NameError, NameError
  | AttributeError, AttributeError | KeyError, KeyError
  | OverflowError, OverflowError | URLError, URLError
  | Unsupported, Unsupported => true
  | SystemExit c, SystemExit d => Z.eqb c d
  | _, _ => false
  end.

(** [try: body except cls: handler]. *)
Definition try_except {A : Type} (body : result A) (cls : exn) (handler : result A)
  : result A :=
  match body with
  | Ok a => Ok a
  | Raise e => if exn_eqb e cls then handler else Raise e
  end.

(** [mapM f l] runs [f] on the elements of [l] from left to right and stops
    at the first one that raises. *)
Fixpoint mapM {A B : Type} (f : A -> result B) (l : list A) : result (list B) :=
  match l with
  | [] => Ok []
  | a :: l' => b <- f a ;; bs <- mapM f l' ;; Ok (b :: bs)
  end.

(** ** Python strings *)

Module PyStr.

(** A code point, and a [str]. *)
Definition char : Type := N.
Definition str : Type := list char.

(** An ASCII literal as a [str]. *)
Fixpoint lit (s : string) : str :=
  match s with
  | EmptyString => []
  | String a s' => N_of_ascii a :: lit s'
  end.

Definition char_eqb (a b : char) : bool := N.eqb a b.

Fixpoint str_eqb (a b : str) : bool :=
  match a, b with
  | [], [] => true
  | x :: a', y :: b' => char_eqb x y && str_eqb a' b'
  | _, _ => false
  end.

(** [str.isspace] on one code point: the Unicode white space characters. *)
Definition isspace (c : char) : bool :=
  ((9 <=? c) && (c <=? 13) || (28 <=? c) && (c <=? 32)
   || (c =? 133) || (c =? 160) || (c =? 5760)
   || (8192 <=? c) && (c <=? 8202)
   || (c =? 8232) || (c =? 8233) || (c =? 8239) || (c =? 8287)
   || (c =? 12288))%N.

Fixpoint lstrip (s : str) : str :=
  match s with
  | c :: s' => if isspace c then lstrip s' else s
  | [] => []
  end.

Definition rstrip (s : str) : str := rev (lstrip (rev s)).

(** [s.strip()]. *)
Definition strip (s : str) : str := rstrip (lstrip s).

(** The line boundaries of [str.splitlines], CR LF apart. *)
Definition is_linebreak (c : char) : bool :=
  ((c =? 10) || (c =? 11) || (c =? 12) || (c =? 13)
   || (c =? 28) || (c =? 29) || (c =? 30)
   || (c =? 133) || (c =? 8232) || (c =? 8233))%N.

(** [s.splitlines()]: [cur] is the line being read, reversed; a line that
    is empty at the end of the string is not reported. *)
Fixpoint splitlines_aux (s : str) (cur : str) : list str :=
  match s with
  | [] => match cur with [] => [] | _ => [rev cur] end
  | c :: s' =>
      if is_linebreak c then
        match s' with
        | d :: s'' =>
            if ((c =? 13) && (d =? 10))%N
            then rev cur :: splitlines_aux s'' []
            else rev cur :: splitlines_aux s' []
        | [] => [rev cur]
        end
      else splitlines_aux s' (c :: cur)
  end.

Definition splitlines (s : str) : list str := splitlines_aux s [].

(** [s.split(sep)] for a separator of one code point. *)
Fixpoint split_aux (sep : char) (s : str) (cur : str) : list str :=
  match s with
  | [] => [rev cur]
  | c :: s' =>
      if char_eqb c sep then rev cur :: split_aux sep s' []
      else split_aux sep s' (c :: cur)
  end.

Definition split (sep : char) (s : str) : list str := split_aux sep s [].

(** [s.startswith(w)], and what follows [w]. *)
Fixpoint strip_prefix (w s : str) : option str :=
  match w, s with
  | [], _ => Some s
  | x :: w', y :: s' => if char_eqb x y then strip_prefix w' s' else None
  | _ :: _, [] => None
  end.

(** [w in s]. *)
Fixpoint contains (w s : str) : bool :=
  match strip_prefix w s with
  | Some _ => true
  | None => match s with
            | [] => false
            | _ :: s' => contains w s'
            end
  end.

(** [s[n:]] and [s[:-n]] for [n >= 0]. *)
Definition drop_first (n : nat) (s : str) : str := skipn n s.
Definition drop_last (n : nat) (s : str) : str := firstn (length s - n) s.

End PyStr.

Import PyStr.

(** [l[i]] for a Python list: negative indices count from the end. *)
Definition py_index {A : Type} (l : list A) (i : Z) : result A :=
  let n := Z.of_nat (length l) in
  let j := if i <? 0 then i + n else i in
  if (0 <=? j) && (j <? n) then
    match nth_error l (Z.to_nat j) with
    | Some a => Ok a
    | None => Raise IndexError
    end
  else Raise IndexError.

(** ** Python numbers *)

Module PyNum.

(** *** Reading a numeric literal *)

(** The first code point of each run of ten decimal digits (Unicode
    category Nd, as of the Unicode 14.0 tables of CPython 3.11). *)
Definition decimal_runs : list N :=
  [48; 1632; 1776; 1984; 2406; 2534; 2662; 2790; 2918; 3046; 3174; 3302;
   3430; 3558; 3664; 3792; 3872; 4160; 4240; 6112; 6160; 6470; 6608; 6784;
   6800; 6992; 7088; 7232; 7248; 42528; 43216; 43264; 43472; 43504; 43600;
   44016; 65296; 66720; 68912; 69734; 69872; 69942; 70096; 70384; 70736;
   70864; 71248; 71360; 71472; 71904; 72016; 72784; 73040; 73120; 92768;
   92864; 93008; 120782; 120792; 120802; 120812; 120822; 123200; 123632;
   125264; 130032]%N.

Definition decimal_value (c : char) : option N :=
  match find (fun s => (s <=? c) && (c <? s + 10))%N decimal_runs with
  | Some s => Some (c - s)%N
  | None => None
  end.

Definition is_decimal (c : char) : bool :=
  match decimal_value c with
  | Some _ => true
  | None => false
  end.

(** [int] and [float] first bring their argument to ASCII: code points
    below 127 stay, other white space becomes a space, other decimal
    digits become ASCII digits and anything else becomes ['?']. *)
Definition to_ascii (c : char) : char :=
  if (c <? 127)%N then c
  else if isspace c then 32%N
  else match decimal_value c with
       | Some d => (48 + d)%N
       | None => 63%N
       end.

(** The white space of the C parsers: tab to carriage return, and space. *)
Definition c_isspace (c : char) : bool :=
  ((9 <=? c) && (c <=? 13) || (c =? 32))%N.

Fixpoint c_lstrip (s : str) : str :=
  match s with
  | c :: s' => if c_isspace c then c_lstrip s' else s
  | [] => []
  end.

Definition c_strip (s : str) : str := rev (c_lstrip (rev (c_lstrip s))).

Definition is_digit (c : char) : bool := ((48 <=? c) && (c <=? 57))%N.

(** An underscore may stand between two digits, and nowhere else. *)
Fixpoint remove_underscores (prev_digit : bool) (s : str) : option str :=
  match s with
  | [] => Some []
  | c :: s' =>
      if (c =? 95)%N then
        match prev_digit, s' with
        | true, d :: _ =>
            if is_digit d then remove_underscores false s' else None
        | _, _ => None
        end
      else option_map (cons c) (remove_underscores (is_digit c) s')
  end.

(** An optional sign: [true] for ['-']. *)
Definition read_sign (s : str) : bool * str :=
  match s with
  | c :: s' => if (c =? 45)%N then (true, s')
               else if (c =? 43)%N then (false, s')
               else (false, s)
  | [] => (false, [])
  end.

(** The value of a run of ASCII digits, most significant first. *)
Definition digits_value (ds : str) : Z :=
  fold_left (fun acc c => 10 * acc + Z.of_N (c - 48)) ds 0.

(** A non-empty string of digits, and its value. *)
Definition all_digits (s : str) : option Z :=
  match s with
  | [] => None
  | _ => if forallb is_digit s then Some (digits_value s) else None
  end.

(** The longest prefix of digits, and the rest. *)
Fixpoint span_digits (s : str) : str * str :=
  match s with
  | c :: s' => if is_digit c
               then let '(ds, r) := span_digits s' in (c :: ds, r)
               else ([], s)
  | [] => ([], [])
  end.

(** [int(s)] for a [str], in base 10. *)
Definition int_of_str (s : str) : result Z :=
  match remove_underscores false (c_strip (map to_ascii s)) with
  | None => Raise ValueError
  | Some u =>
      let '(neg, v) := read_sign u in
      match all_digits v with
      | Some n => Ok (if neg then - n else n)
      | None => Raise ValueError
      end
  end.

(** *** binary64 *)

Definition prec : Z := 53.
Definition emax : Z := 1024.

(** The float nearest to [n * 10 ^ e], ties to even, for [n > 0]: an exact
    integer is rounded as it is, a quotient by a power of ten is rounded
    from the quotient and the position of the remainder. *)
Definition decimal_to_float (neg : bool) (n : positive) (e : Z) : spec_float :=
  if 0 <=? e then binary_round prec emax neg (n * Z.to_pos (10 ^ e))%positive 0
  else SFdiv prec emax (S754_finite neg n 0)
                       (S754_finite false (Z.to_pos (10 ^ (- e))) 0).

Definition lower (c : char) : char :=
  if ((65 <=? c) && (c <=? 90))%N then (c + 32)%N else c.

(** The exponent part of a float literal: nothing, or [e], a sign and
    digits. *)
Definition read_exponent (s : str) : option Z :=
  match s with
  | [] => Some 0
  | c :: s' =>
      if (lower c =? 101)%N then
        let '(neg, ds) := read_sign s' in
        match all_digits ds with
        | Some n => Some (if neg then - n else n)
        | None => None
        end
      else None
  end.

(** [float(s)] for a [str]. *)
Definition float_of_str (s : str) : result spec_float :=
  match remove_underscores false (c_strip (map to_ascii s)) with
  | None => Raise ValueError
  | Some u =>
      let '(neg, v) := read_sign u in
      let w := map lower v in
      if str_eqb w (lit "inf") || str_eqb w (lit "infinity")
      then Ok (S754_infinity neg)
      else if str_eqb w (lit "nan") then Ok S754_nan
      else
        let '(ip, r1) := span_digits v in
        let '(fp, r2) :=
          match r1 with
          | c :: r => if (c =? 46)%N then span_digits r else ([], r1)
          | [] => ([], [])
          end in
        match ip ++ fp, read_exponent r2 with
        | _ :: _, Some e =>
            match digits_value (ip ++ fp) with
            | Zpos n => Ok (decimal_to_float neg n (e - Z.of_nat (length fp)))
            | _ => Ok (S754_zero neg)
            end
        | _, _ => Raise ValueError
        end
  end.

(** The conversion of an [int] operand to [float]. *)
Definition float_of_int (z : Z) : result spec_float :=
  match binary_normalize prec emax z 0 false with
  | S754_infinity _ => Raise OverflowError
  | x => Ok x
  end.

(** [x * n] for a float [x] and an int [n]. *)
Definition float_mul_int (x : spec_float) (n : Z) : result spec_float :=
  y <- float_of_int n ;; Ok (SFmul prec emax x y).

(** [int(x)] for a float: truncation towards zero. *)
Definition int_of_float (x : spec_float) : result Z :=
  match x with
  | S754_zero _ => Ok 0
  | S754_infinity _ => Raise OverflowError
  | S754_nan => Raise ValueError
  | S754_finite s m e =>
      let a := if 0 <=? e then Zpos m * 2 ^ e else Zpos m / 2 ^ (- e) in
      Ok (if s then - a else a)
  end.

(** [round(x)] for a float: the nearest integer, ties to even. *)
Definition round_float (x : spec_float) : result Z :=
  match x with
  | S754_zero _ => Ok 0
  | S754_infinity _ => Raise OverflowError
  | S754_nan => Raise ValueError
  | S754_finite s m e =>
      let a :=
        if 0 <=? e then Zpos m * 2 ^ e
        else
          let d := 2 ^ (- e) in
          let q := Zpos m / d in
          match 2 * (Zpos m mod d) ?= d with
          | Lt => q
          | Gt => q + 1
          | Eq => if Z.even q then q else q + 1
          end in
      Ok (if s then - a else a)
  end.

End PyNum.

Import PyNum.

(** ** Regular expressions and templates *)

Module PyRe.

(** A pattern is a sequence of pieces: a literal, or a greedy repetition
    of one character class.  The patterns of the scraper have their
    groups around single pieces, so a match reports the text of every
    piece. *)
Inductive piece : Type :=
| Lit (w : str)
| Star (cls : char -> bool)
| Plus (cls : char -> bool).

Definition pattern : Type := list piece.

Section Greedy.
Variable cls : char -> bool.
(** The rest of the pattern, run on what the repetition leaves. *)
Variable k : str -> option (list str * str).

Definition continue_with (taken s : str) : option (list str * str) :=
  match k s with
  | Some (segs, rest) => Some (taken :: segs, rest)
  | None => None
  end.

(** The repetition takes as many characters as it can, and gives them
    back one at a time while the rest of the pattern fails. *)
Fixpoint greedy (s taken : str) : option (list str * str) :=
  match s with
  | c :: s' =>
      if cls c then
        match greedy s' (taken ++ [c]) with
        | Some r => Some r
        | None => continue_with taken s
        end
      else continue_with taken s
  | [] => continue_with taken []
  end.
End Greedy.

(** [rmatch p s]: a match of [p] at the start of [s], as the text of every
    piece and what is left of [s]. *)
Fixpoint rmatch (p : pattern) (s : str) : option (list str * str) :=
  match p with
  | [] => Some ([], s)
  | Lit w :: p' =>
      match strip_prefix w s with
      | Some s' =>
          match rmatch p' s' with
          | Some (segs, rest) => Some (w :: segs, rest)
          | None => None
          end
      | None => None
      end
  | Star cls :: p' => greedy cls (rmatch p') s []
  | Plus cls :: p' =>
      match s with
      | c :: s' => if cls c then greedy cls (rmatch p') s' [c] else None
      | [] => None
      end
  end.

Section Sub.
Variable p : pattern.
Variable repl : list str -> str.

(** The scan of [re.sub]: the leftmost match is replaced and the scan
    goes on after it; where nothing matches, or the match is empty, one
    character is copied. *)
Fixpoint sub_scan (fuel : nat) (s : str) : str :=
  match fuel with
  | O =>
      match rmatch p s with
      | Some (segs, rest) => repl segs ++ rest
      | None => s
      end
  | S f =>
      match rmatch p s with
      | Some (segs, rest) =>
          if (length rest <? length s)%nat then repl segs ++ sub_scan f rest
          else repl segs ++ match s with
                            | c :: s' => c :: sub_scan f s'
                            | [] => []
                            end
      | None =>
          match s with
          | c :: s' => c :: sub_scan f s'
          | [] => []
          end
      end
  end.

Definition re_sub (s : str) : str := sub_scan (length s) s.
End Sub.

(** [.] without DOTALL, and [[0-9]]. *)
Definition dot (c : char) : bool := negb (c =? 10)%N.
Definition digit09 (c : char) : bool := is_digit c.

End PyRe.

Import PyRe.

Module PyFormat.

(** [str(n)] for an int. *)
Fixpoint digits_of (fuel : nat) (n : N) (acc : str) : str :=
  let acc' := (48 + n mod 10)%N :: acc in
  match fuel with
  | O => acc'
  | S f => if (n <? 10)%N then acc' else digits_of f (n / 10)%N acc'
  end.

Definition str_of_int (z : Z) : str :=
  let n := Z.abs_N z in
  let ds := digits_of (N.size_nat n) n [] in
  if z <? 0 then 45%N :: ds else ds.

(** The characters that give a replacement field more than a plain name:
    attribute and index lookups, a conversion, a format spec. *)
Definition is_field_syntax (c : char) : bool :=
  ((c =? 46) || (c =? 91) || (c =? 93) || (c =? 33) || (c =? 58))%N.

(** The text of the replacement field [name] in [t.format(page=page)]:
    the only keyword is [page] and there is no positional argument, so a
    number is an index out of range and another name is a missing key. *)
Definition field_value (name : str) (page : Z) : result str :=
  if existsb is_field_syntax name then Raise Unsupported
  else if str_eqb name (lit "page") then Ok (str_of_int page)
  else if forallb is_decimal name then Raise IndexError
  else Raise KeyError.

(** [t.format(page=page)].  [field] is [None] in literal text and holds
    the name read so far inside a replacement field.  A doubled brace is
    a literal brace. *)
Fixpoint format_scan (t : str) (field : option str) (page : Z) : result str :=
  match t, field with
  | [], None => Ok []
  | [], Some _ => Raise ValueError
  | c :: t', Some name =>
      if (c =? 125)%N then
        v <- field_value name page ;;
        r <- format_scan t' None page ;;
        Ok (v ++ r)
      else if (c =? 123)%N then
        Raise (if existsb is_field_syntax name then Unsupported else ValueError)
      else format_scan t' (Some (name ++ [c])) page
  | c :: t', None =>
      if (c =? 123)%N then
        match t' with
        | d :: t'' =>
            if (d =? 123)%N
            then r <- format_scan t'' None page ;; Ok (123%N :: r)
            else format_scan t' (Some []) page
        | [] => Raise ValueError
        end
      else if (c =? 125)%N then
        match t' with
        | d :: t'' =>
            if (d =? 125)%N
            then r <- format_scan t'' None page ;; Ok (125%N :: r)
            else Raise ValueError
        | [] => Raise ValueError
        end
      else r <- format_scan t' None page ;; Ok (c :: r)
  end.

Definition format_page (t : str) (page : Z) : result str :=
  format_scan t None page.

End PyFormat.

Import PyFormat.

(** ** The scraper *)

(** *** Pages and listings *)

(** What the scraper reads of a parsed page: the [.text] of every
    [div] of class [clsfd_list_row_group], in document order
    ([soup.find_all]), and the [.text] of the first [ul] of class
    [pagination pull-right], or [None] when the page has none
    ([soup.find]). *)
Record soup : Type := {
  ad_texts : list str;
  pagination_text : option str
}.

(** A [datetime.date]. *)
Record date : Type := {
  year : Z;
  month : Z;
  day : Z
}.

Definition is_leap (y : Z) : bool :=
  (y mod 4 =? 0) && (negb (y mod 100 =? 0) || (y mod 400 =? 0)).

Definition days_in_month (y m : Z) : Z :=
  if m =? 2 then (if is_leap y then 29 else 28)
  else if (m =? 4) || (m =? 6) || (m =? 9) || (m =? 11) then 30
  else 31.

Definition fits_c_int (z : Z) : bool := (- 2 ^ 31 <=? z) && (z <? 2 ^ 31).

(** [datetime.date(y, m, d)]: the arguments are read as C ints, then
    checked against the calendar. *)
Definition date_new (y m d : Z) : result date :=
  if negb (fits_c_int y && fits_c_int m && fits_c_int d) then Raise OverflowError
  else if negb ((1 <=? y) && (y <=? 9999)) then Raise ValueError
  else if negb ((1 <=? m) && (m <=? 12)) then Raise ValueError
  else if negb ((1 <=? d) && (d <=? days_in_month y m)) then Raise ValueError
  else Ok {| year := y; month := m; day := d |}.

(** One row of the result: [(description, distance, price, date)]. *)
Definition listing : Type := (str * Z * Z * date)%type.

Definition description_of (b : listing) : str :=
  let '(description, _, _, _) := b in description.

(** *** [normalize_url] *)

(** The pattern of line 124: a group of any characters, the literal
    [&pg=], one or more of [0-9], a group of any characters.  The
    replacement is group 1 followed by group 2: the text of the first and
    of the last piece. *)
Definition pg_pattern : pattern :=
  [Star dot; Lit (lit "&pg="); Plus digit09; Star dot].

Definition pg_replacement (segs : list str) : str :=
  nth 0 segs [] ++ nth 3 segs [].

Definition normalize_url (url : str) : str :=
  let new_url := re_sub pg_pattern pg_replacement url in
  new_url ++ lit "&pg={page}".

(** *** [get_page_bikes] *)

(** The marker of the analytics snippet. *)
Definition marker : str := lit "googletag".

Definition truthy (s : str) : bool :=
  match s with [] => false | _ => true end.

(** Line 141: the non-blank lines of the ad, stripped. *)
Definition text_lines (ad_text : str) : list str :=
  map strip (filter (fun line => truthy (strip line)) (splitlines ad_text)).

(** Lines 143-144: when the marker is in [text[-1]], [text.pop()]. *)
Definition drop_injected (text : list str) : result (list str) :=
  last_line <- py_index text (-1) ;;
  Ok (if contains marker last_line then removelast text else text).

(** Line 145: the four lines the fields are read from, in the order the
    subscripts are evaluated. *)
Definition positional (text : list str) : result (str * str * str * str) :=
  description <- py_index text 0 ;;
  distance <- py_index text (-2) ;;
  price <- py_index text (-3) ;;
  date <- py_index text (-5) ;;
  Ok (description, distance, price, date).

(** Line 147. *)
Definition normalize_distance (distance : str) : result Z :=
  if contains (lit ".") distance then
    x <- float_of_str (drop_last 3 distance) ;;
    y <- float_mul_int x 1000 ;;
    int_of_float y
  else int_of_str (drop_last 3 distance).

(** Line 148.  The branch without a dot calls [pint], a name that is
    bound nowhere in the module. *)
Definition normalize_price (price : str) : result Z :=
  if contains (lit ".") price then
    x <- float_of_str (drop_first 2 price) ;;
    y <- float_mul_int x 1000 ;;
    int_of_float y
  else Raise NameError.

(** Line 150: [year += 2000 if year < 20 else 1990]. *)
Definition resolve_year (y : Z) : Z :=
  y + (if y <? 20 then 2000 else 1990).

(** Lines 149-151.  The unpacking of the [int] of the parts between
    slashes wants exactly two parts; [int] raises nothing but
    [ValueError], and so does a wrong number of parts. *)
Definition normalize_date (token : str) : result date :=
  match split 47%N token with
  | [m; y] =>
      month <- int_of_str m ;;
      year <- int_of_str y ;;
      date_new (resolve_year year) month 1
  | _ => Raise ValueError
  end.

(** Lines 145-152: the listing read from the lines of an ad. *)
Definition fields_of_text (text : list str) : result listing :=
  ' (description, distance, price, date) <- positional text ;;
  distance <- normalize_distance distance ;;
  price <- normalize_price price ;;
  date <- normalize_date date ;;
  Ok (description, distance, price, date).

(** The body of the loop, for one ad. *)
Definition bike_of_ad (ad_text : str) : result listing :=
  text <- drop_injected (text_lines ad_text) ;;
  fields_of_text text.

(** The loop: [bikes] is the list built so far. *)
Fixpoint bikes_loop (ads : list str) (bikes : list listing) : result (list listing) :=
  match ads with
  | [] => Ok bikes
  | ad :: ads' => b <- bike_of_ad ad ;; bikes_loop ads' (bikes ++ [b])
  end.

Definition get_page_bikes (page : soup) : result (list listing) :=
  bikes_loop (ad_texts page) [].

(** *** [get_last_page_number] *)

Definition get_last_page_number (page : soup) : result Z :=
  try_except
    (match pagination_text page with
     | None => Raise AttributeError
     | Some t => line <- py_index (splitlines t) (-2) ;; int_of_str line
     end)
    ValueError
    (Ok 2).

(** *** [get_soup] and [get_data] *)

(** What a run does besides computing: the urls it opens and the lines
    it logs, in order. *)
Inductive event : Type :=
| Open (url : str)
| LogStart
| LogRetrieving (page : Z)
| LogFinished
| LogInvalidUrl (url : str).

(** A computation with its events: the events up to the point where it
    returned or raised. *)
Definition io (A : Type) : Type := (list event * result A)%type.

Definition io_ret {A : Type} (a : A) : io A := ([], Ok a).
Definition io_raise {A : Type} (e : exn) : io A := ([], Raise e).
Definition tell (ev : event) : io unit := ([ev], Ok tt).
Definition lift {A : Type} (r : result A) : io A := ([], r).

Definition io_bind {A B : Type} (m : io A) (k : A -> io B) : io B :=
  match m with
  | (t, Ok a) => let '(t', r) := k a in (t ++ t', r)
  | (t, Raise e) => (t, Raise e)
  end.

Notation "x <~ m ;; k" := (io_bind m (fun x => k))
  (at level 61, m at next level, right associativity) : py_scope.
Notation "m >> k" := (io_bind m (fun _ => k))
  (at level 61, right associativity) : py_scope.

(** [range(lo, hi)]. *)
Definition py_range (lo hi : Z) : list Z :=
  map (fun i => lo + Z.of_nat i) (seq 0 (Z.to_nat (hi - lo))).

Section Crawl.

(** The site: what [BeautifulSoup(urlopen(url).read())] returns for a
    url, or the exception it raises. *)
Variable site : str -> result soup.

Definition get_soup (url : str) : io soup :=
  tell (Open url) >>
  match site url with
  | Ok page => io_ret page
  | Raise e =>
      if exn_eqb e ValueError
      then tell (LogInvalidUrl url) >> io_raise (SystemExit 1)
      else io_raise e
  end.

(** The loop of lines 173-176: [data] is the list built so far. *)
Fixpoint pages_loop (url : str) (pages : list Z) (data : list listing)
  : io (list listing) :=
  match pages with
  | [] => io_ret data
  | page :: pages' =>
      tell (LogRetrieving page) >>
      page_url <~ lift (format_page url page) ;;
      page_soup <~ get_soup page_url ;;
      bikes <~ lift (get_page_bikes page_soup) ;;
      pages_loop url pages' (data ++ bikes)
  end.

Definition get_data (url : str) : io (list listing) :=
  tell LogStart >>
  tell (LogRetrieving 1) >>
  let url := normalize_url url in
  first_page_url <~ lift (format_page url 1) ;;
  first_soup <~ get_soup first_page_url ;;
  bikes <~ lift (get_page_bikes first_soup) ;;
  last_page <~ lift (get_last_page_number first_soup) ;;
  data <~ pages_loop url (py_range 2 (last_page + 1)) bikes ;;
  tell LogFinished >>
  io_ret data.

End Crawl.

(** The urls a run opened, in order. *)
Definition opened (trace : list event) : list str :=
  flat_map (fun ev => match ev with Open u => [u] | _ => [] end) trace.

(** * Properties *)

(** ** Sample tokens and ads *)

Definition euro : char := 8364%N.

(** The unit after a distance on the site: three Greek letters. *)
Definition km : str := [967; 955; 956]%N.

Definition newline : str := [10%N].

(** An ad of six lines: description, date, engine, price, distance and
    place. *)
Definition sample_ad (description date price distance : str) : str :=
  description ++ newline ++ date ++ newline ++ lit "600 cc" ++ newline
  ++ price ++ newline ++ distance ++ newline ++ lit "Athens" ++ newline.

(** The line that the analytics snippet leaves at the end of an ad. *)
Definition injected_line : str := lit "googletag.cmd.push(function() { });".

(** The value the specification gives to a token with a dot:
    [round(float(token) * 1000)]. *)
Definition round_thousands (token : str) : result Z :=
  x <- float_of_str token ;;
  y <- float_mul_int x 1000 ;;
  round_float y.

(** What the specification asks of a page with malformed ads: the ads
    that fail are skipped, the others yield their listings. *)
Definition get_page_bikes_skipping (page : soup) : list listing :=
  flat_map (fun ad => match bike_of_ad ad with
                      | Ok b => [b]
                      | Raise _ => []
                      end) (ad_texts page).

(** ** The field normalizer *)

Lemma normalize_distance_without_dot (distance : str) :
  contains (lit ".") distance = false ->
  normalize_distance distance = int_of_str (drop_last 3 distance).
Proof. intros H. unfold normalize_distance. now rewrite H. Qed.

Lemma normalize_price_without_dot (price : str) :
  contains (lit ".") price = false ->
  normalize_price price = Raise NameError.
Proof. intros H. unfold normalize_price. now rewrite H. Qed.

Lemma normalize_distance_with_dot (distance : str) :
  contains (lit ".") distance = true ->
  normalize_distance distance =
    (x <- float_of_str (drop_last 3 distance) ;;
     y <- float_mul_int x 1000 ;;
     int_of_float y).
Proof. intros H. unfold normalize_distance. now rewrite H. Qed.

Example distance_12000 :
  normalize_distance (lit "12000 " ++ km) = Ok 12000.
Proof. vm_compute. reflexivity. Qed.

Example distance_12_5 :
  normalize_distance (lit "12.5 " ++ km) = Ok 12500
  /\ round_thousands (lit "12.5 ") = Ok 12500.
Proof. split; vm_compute; reflexivity. Qed.

Example price_3_500 :
  normalize_price (euro :: lit " 3.500") = Ok 3500.
Proof. vm_compute. reflexivity. Qed.

(** C1.  A price token without a dot is not parsed as a plain integer:
    line 148 calls the unbound name [pint] and raises [NameError], where
    [int] of the same token is 3500.  The distance token without a dot,
    on line 147, is parsed by [int]. *)
Theorem price_without_dot_raises_NameError :
  normalize_price (euro :: lit " 3500") = Raise NameError
  /\ int_of_str (drop_first 2 (euro :: lit " 3500")) = Ok 3500
  /\ normalize_distance (lit "3500 " ++ km) = Ok 3500.
Proof. repeat split; vm_compute; reflexivity. Qed.

(** C4.  A token with a dot is not rounded to the nearest integer: the
    product [float(token) * 1000] is truncated by [int], and for the token
    [1.001] the product is just below 1001, so the code yields 1000 where
    rounding yields 1001. *)
Theorem dotted_token_is_truncated :
  normalize_distance (lit "1.001 " ++ km) = Ok 1000
  /\ normalize_price (euro :: lit " 1.001") = Ok 1000
  /\ round_thousands (lit "1.001") = Ok 1001.
Proof. repeat split; vm_compute; reflexivity. Qed.

(** ** Dates *)

Example date_07_15 :
  normalize_date (lit "07/15") = Ok {| year := 2015; month := 7; day := 1 |}.
Proof. vm_compute. reflexivity. Qed.

(** C5, as stated, fails: the token [07/95] does not resolve to 1985. *)
Lemma date_07_95_is_not_1985 :
  ~ (exists d, normalize_date (lit "07/95") = Ok d
               /\ month d = 7 /\ year d = 1985).
Proof.
  intros [d [H [_ Hy]]].
  vm_compute in H. inversion H; subst d. discriminate Hy.
Qed.

(** C5, amended.  The date token [07/95] normalizes to month 7 and
    resolved year 2085, that is 1990 + 95. *)
Theorem date_07_95 :
  normalize_date (lit "07/95") = Ok {| year := 2085; month := 7; day := 1 |}.
Proof. vm_compute. reflexivity. Qed.

(** *** The characters of an integer literal *)

Definition numeric_char (c : char) : bool :=
  is_digit c || c_isspace c || (c =? 95)%N || (c =? 43)%N || (c =? 45)%N.

Lemma c_lstrip_Forall (P : char -> Prop) :
  (forall c, c_isspace c = true -> P c) ->
  forall s, Forall P (c_lstrip s) -> Forall P s.
Proof.
  intros HP s. induction s as [|c s IH]; simpl; intros H; auto.
  destruct (c_isspace c) eqn:E; auto.
Qed.

Lemma c_strip_Forall (P : char -> Prop) :
  (forall c, c_isspace c = true -> P c) ->
  forall s, Forall P (c_strip s) -> Forall P s.
Proof.
  intros HP s H. unfold c_strip in H.
  apply (c_lstrip_Forall P HP).
  apply Forall_rev in H. rewrite rev_involutive in H.
  apply (c_lstrip_Forall P HP) in H.
  apply Forall_rev in H. now rewrite rev_involutive in H.
Qed.

Lemma remove_underscores_Forall (P : char -> Prop) :
  P 95%N ->
  forall s b u, remove_underscores b s = Some u -> Forall P u -> Forall P s.
Proof.
  intros HP s. induction s as [|c s IH]; intros b u H Hu; auto.
  simpl in H. destruct (c =? 95)%N eqn:E.
  - apply N.eqb_eq in E. subst c.
    destruct b; try discriminate. destruct s as [|d s]; try discriminate.
    destruct (is_digit d); try discriminate.
    constructor; eauto.
  - destruct (remove_underscores (is_digit c) s) as [u'|] eqn:R;
      simpl in H; try discriminate.
    inversion H; subst u. inversion Hu; subst.
    constructor; eauto.
Qed.

Lemma read_sign_Forall (P : char -> Prop) (u v : str) (neg : bool) :
  P 43%N -> P 45%N -> read_sign u = (neg, v) -> Forall P v -> Forall P u.
Proof.
  intros Hplus Hminus H Hv. destruct u as [|c u]; simpl in H.
  - constructor.
  - destruct (c =? 45)%N eqn:E1.
    + apply N.eqb_eq in E1. subst c. inversion H; subst. now constructor.
    + destruct (c =? 43)%N eqn:E2.
      * apply N.eqb_eq in E2. subst c. inversion H; subst. now constructor.
      * inversion H; subst. exact Hv.
Qed.

Lemma all_digits_Forall (v : str) (n : Z) :
  all_digits v = Some n -> Forall (fun c => is_digit c = true) v.
Proof.
  unfold all_digits. destruct v as [|c v]; try discriminate.
  destruct (forallb is_digit (c :: v)) eqn:E; try discriminate.
  intros _. apply Forall_forall. now apply forallb_forall.
Qed.

(** A string that [int] accepts is made of digits, white space,
    underscores and signs, once brought to ASCII. *)
Lemma int_of_str_numeric (s : str) (n : Z) :
  int_of_str s = Ok n ->
  Forall (fun c => numeric_char (to_ascii c) = true) s.
Proof.
  unfold int_of_str. intros H.
  destruct (remove_underscores false (c_strip (map to_ascii s))) as [u|] eqn:R;
    try discriminate.
  destruct (read_sign u) as [neg v] eqn:S.
  destruct (all_digits v) as [k|] eqn:D; try discriminate.
  apply all_digits_Forall in D.
  assert (Hv : Forall (fun c => numeric_char c = true) v).
  { eapply Forall_impl; [|exact D]. intros c Hc. unfold numeric_char.
    now rewrite Hc. }
  eapply read_sign_Forall in Hv; [| reflexivity | reflexivity | exact S].
  eapply remove_underscores_Forall in Hv; [| reflexivity | exact R].
  apply c_strip_Forall in Hv.
  - now apply Forall_map in Hv.
  - intros c Hc. unfold numeric_char. rewrite Hc.
    now rewrite orb_true_r.
Qed.

Lemma int_of_str_no_slash (s : str) (n : Z) :
  int_of_str s = Ok n -> ~ In 47%N s.
Proof.
  intros H Hin. apply int_of_str_numeric in H.
  rewrite Forall_forall in H. apply H in Hin. discriminate Hin.
Qed.

(** *** Splitting at a separator *)

Lemma split_aux_no_sep (sep : char) (s cur : str) :
  ~ In sep s -> split_aux sep s cur = [rev cur ++ s].
Proof.
  revert cur. induction s as [|c s IH]; intros cur Hn; simpl.
  - now rewrite app_nil_r.
  - unfold char_eqb. destruct (c =? sep)%N eqn:E.
    + apply N.eqb_eq in E. subst c. exfalso. apply Hn. now left.
    + rewrite IH by (intros Hin; apply Hn; now right).
      simpl. now rewrite <- app_assoc.
Qed.

Lemma split_aux_app (sep : char) (a b cur : str) :
  ~ In sep a ->
  split_aux sep (a ++ sep :: b) cur = (rev cur ++ a) :: split_aux sep b [].
Proof.
  revert cur. induction a as [|c a IH]; intros cur Hn; simpl.
  - unfold char_eqb. rewrite N.eqb_refl. now rewrite app_nil_r.
  - unfold char_eqb. destruct (c =? sep)%N eqn:E.
    + apply N.eqb_eq in E. subst c. exfalso. apply Hn. now left.
    + rewrite IH by (intros Hin; apply Hn; now right).
      simpl. now rewrite <- app_assoc.
Qed.

Lemma split_two (sep : char) (a b : str) :
  ~ In sep a -> ~ In sep b -> split sep (a ++ sep :: b) = [a; b].
Proof.
  intros Ha Hb. unfold split.
  rewrite split_aux_app by exact Ha.
  now rewrite split_aux_no_sep by exact Hb.
Qed.

(** *** The year *)

Lemma days_in_month_ge (y m : Z) : 28 <= days_in_month y m.
Proof.
  unfold days_in_month.
  destruct (m =? 2); [destruct (is_leap y)|]; try lia.
  destruct ((m =? 4) || (m =? 6) || (m =? 9) || (m =? 11)); lia.
Qed.

Lemma date_new_first_of_month (y m : Z) :
  1 <= y <= 9999 -> 1 <= m <= 12 ->
  date_new y m 1 = Ok {| year := y; month := m; day := 1 |}.
Proof.
  intros Hy Hm. unfold date_new, fits_c_int.
  change (2 ^ 31) with 2147483648.
  pose proof (days_in_month_ge y m) as Hd.
  repeat match goal with
         | |- context [?a <=? ?b] => destruct (Z.leb_spec a b); try lia
         | |- context [?a <? ?b] => destruct (Z.ltb_spec a b); try lia
         end.
  reflexivity.
Qed.

(** C6.  For a date token MM/YY whose parts parse to a month M and a
    two-digit year Y, the date is built with month M and with the year
    [2000 + Y] when [Y < 20], and [1990 + Y] when [Y >= 20]. *)
Theorem two_digit_year_resolution (mm yy : str) (M Y : Z) :
  int_of_str mm = Ok M ->
  int_of_str yy = Ok Y ->
  1 <= M <= 12 ->
  0 <= Y <= 99 ->
  exists d,
    normalize_date (mm ++ lit "/" ++ yy) = Ok d
    /\ month d = M /\ day d = 1
    /\ (Y < 20 -> year d = 2000 + Y)
    /\ (20 <= Y -> year d = 1990 + Y).
Proof.
  intros Hm Hy HM HY.
  exists {| year := resolve_year Y; month := M; day := 1 |}.
  split.
  - unfold normalize_date. simpl app.
    rewrite split_two by eauto using int_of_str_no_slash.
    rewrite Hm, Hy. simpl.
    apply date_new_first_of_month; [|exact HM].
    unfold resolve_year. destruct (Z.ltb_spec Y 20); lia.
  - cbn [year month day]. unfold resolve_year.
    destruct (Z.ltb_spec Y 20); repeat split; intros; lia.
Qed.

Lemma two_digit_year_resolution_witness :
  exists d,
    normalize_date (lit "07" ++ lit "/" ++ lit "15") = Ok d
    /\ month d = 7 /\ day d = 1
    /\ (15 < 20 -> year d = 2000 + 15)
    /\ (20 <= 15 -> year d = 1990 + 15).
Proof.
  apply (two_digit_year_resolution (lit "07") (lit "15") 7 15).
  - vm_compute. reflexivity.
  - vm_compute. reflexivity.
  - lia.
  - lia.
Defined.

(** ** Indexing *)

Lemma py_index_in_range {A : Type} (l : list A) (i : Z) :
  - Z.of_nat (length l) <= i < Z.of_nat (length l) ->
  exists a, py_index l i = Ok a.
Proof.
  intros H. unfold py_index.
  set (n := Z.of_nat (length l)) in *.
  set (j := if i <? 0 then i + n else i).
  assert (Hj : 0 <= j < n) by (subst j; destruct (Z.ltb_spec i 0); lia).
  destruct (Z.leb_spec 0 j); try lia.
  destruct (Z.ltb_spec j n); try lia. simpl.
  destruct (nth_error l (Z.to_nat j)) as [a|] eqn:E.
  - now exists a.
  - apply nth_error_None in E. lia.
Qed.

Lemma py_index_out_of_range {A : Type} (l : list A) (i : Z) :
  i < - Z.of_nat (length l) \/ Z.of_nat (length l) <= i ->
  py_index l i = Raise IndexError.
Proof.
  intros H. unfold py_index.
  set (n := Z.of_nat (length l)) in *.
  destruct (Z.ltb_spec i 0).
  - destruct (Z.leb_spec 0 (i + n)); try lia. reflexivity.
  - destruct (Z.leb_spec 0 i); try lia.
    destruct (Z.ltb_spec i n); try lia. reflexivity.
Qed.

Lemma py_index_last {A : Type} (l : list A) (a : A) :
  py_index (l ++ [a]) (-1) = Ok a.
Proof.
  unfold py_index. rewrite length_app. simpl length.
  replace (-1 <? 0) with true by reflexivity.
  replace (-1 + Z.of_nat (length l + 1)) with (Z.of_nat (length l)) by lia.
  destruct (Z.leb_spec 0 (Z.of_nat (length l))); try lia.
  destruct (Z.ltb_spec (Z.of_nat (length l)) (Z.of_nat (length l + 1)));
    try lia.
  simpl. rewrite Nat2Z.id.
  rewrite nth_error_app2 by lia. now rewrite Nat.sub_diag.
Qed.

Lemma py_index_first {A : Type} (l : list A) (a : A) :
  py_index l 0 = Ok a -> hd_error l = Some a.
Proof.
  destruct l as [|x l]; unfold py_index; simpl.
  - discriminate.
  - destruct (Z.ltb_spec 0 (Z.pos (Pos.of_succ_nat (length l)))); try lia.
    simpl. now intros [= ->].
Qed.

(** ** The loop over the ads *)

Lemma bikes_loop_mapM (ads : list str) (bikes : list listing) :
  bikes_loop ads bikes = (bs <- mapM bike_of_ad ads ;; Ok (bikes ++ bs)).
Proof.
  revert bikes. induction ads as [|ad ads IH]; intros bikes; simpl.
  - now rewrite app_nil_r.
  - destruct (bike_of_ad ad) as [b|e]; simpl; auto.
    rewrite IH. destruct (mapM bike_of_ad ads) as [bs|e]; simpl; auto.
    now rewrite <- app_assoc.
Qed.

Lemma get_page_bikes_mapM (page : soup) :
  get_page_bikes page = mapM bike_of_ad (ad_texts page).
Proof.
  unfold get_page_bikes. rewrite bikes_loop_mapM.
  now destruct (mapM bike_of_ad (ad_texts page)).
Qed.

Lemma mapM_raise {A B : Type} (f : A -> result B)
      (before after : list A) (a : A) (e : exn) :
  Forall (fun x => exists b, f x = Ok b) before ->
  f a = Raise e ->
  mapM f (before ++ a :: after) = Raise e.
Proof.
  intros Hb Ha. induction Hb as [|x l [b Hx] _ IH]; simpl.
  - now rewrite Ha.
  - rewrite Hx. simpl. now rewrite IH.
Qed.

Lemma mapM_ok {A B : Type} (f : A -> result B) (l : list A) (g : A -> B) :
  Forall (fun x => f x = Ok (g x)) l ->
  mapM f l = Ok (map g l).
Proof.
  intros H. induction H as [|x l Hx _ IH]; simpl; auto.
  now rewrite Hx, IH.
Qed.

(** ** Malformed ads *)

(** An ad whose date has the wrong shape, and a well-formed one. *)
Definition malformed_ad : str :=
  sample_ad (lit "Honda CBR") (lit "7-95") (euro :: lit " 3.500")
            (lit "12.000 " ++ km).

Definition good_ad : str :=
  sample_ad (lit "Yamaha XT") (lit "07/05") (euro :: lit " 2.800")
            (lit "45.000 " ++ km).

Definition good_listing : listing :=
  (lit "Yamaha XT", 45000, 2800, {| year := 2005; month := 7; day := 1 |}).

Example good_ad_listing : bike_of_ad good_ad = Ok good_listing.
Proof. vm_compute. reflexivity. Qed.

Definition mixed_page : soup :=
  {| ad_texts := [malformed_ad; good_ad]; pagination_text := None |}.

(** C2, as stated, fails: on a page of a malformed ad followed by a
    well-formed one, the code raises [ValueError], where skipping the
    malformed ad yields the listing of the other. *)
Lemma malformed_ad_is_not_skipped :
  get_page_bikes mixed_page = Raise ValueError
  /\ get_page_bikes_skipping mixed_page = [good_listing]
  /\ get_page_bikes mixed_page <> Ok (get_page_bikes_skipping mixed_page).
Proof.
  assert (H : get_page_bikes mixed_page = Raise ValueError)
    by (vm_compute; reflexivity).
  split; [exact H|]. split.
  - vm_compute. reflexivity.
  - rewrite H. discriminate.
Qed.

(** C2, amended.  An ad that raises is not skipped: when the ads before
    it yield their listings, [get_page_bikes] raises the exception of that
    ad, whatever comes after it, so no listing of the page is returned;
    and when the page is the first of a crawl, [get_data] raises it too,
    having logged nothing about it and opened no other page. *)
Theorem failing_ad_aborts_page
        (before after : list str) (ad : str) (e : exn) (pg : option str) :
  Forall (fun a => exists b, bike_of_ad a = Ok b) before ->
  bike_of_ad ad = Raise e ->
  let page := {| ad_texts := before ++ ad :: after; pagination_text := pg |} in
  get_page_bikes page = Raise e
  /\ forall (site : str -> result soup) (url first_page_url : str),
       format_page (normalize_url url) 1 = Ok first_page_url ->
       site first_page_url = Ok page ->
       get_data site url
       = ([LogStart; LogRetrieving 1; Open first_page_url], Raise e).
Proof.
  intros Hb Ha page.
  assert (H : get_page_bikes page = Raise e).
  { rewrite get_page_bikes_mapM. now apply mapM_raise. }
  split; [exact H|].
  intros site url u Hu Hs.
  unfold get_data, get_soup. rewrite Hu. simpl. rewrite Hs. simpl.
  rewrite H. reflexivity.
Qed.

Lemma failing_ad_aborts_page_witness :
  get_page_bikes {| ad_texts := [good_ad] ++ malformed_ad :: [good_ad];
                    pagination_text := None |}
  = Raise ValueError.
Proof.
  apply (failing_ad_aborts_page [good_ad] [good_ad] malformed_ad ValueError None).
  - constructor; [|constructor]. exists good_listing. vm_compute. reflexivity.
  - vm_compute. reflexivity.
Defined.

(** ** The last page number *)

Lemma get_last_page_number_parsed (ads : list str) (t line : str) (n : Z) :
  py_index (splitlines t) (-2) = Ok line ->
  int_of_str line = Ok n ->
  get_last_page_number {| ad_texts := ads; pagination_text := Some t |} = Ok n.
Proof.
  intros Hl Hn. unfold get_last_page_number. simpl.
  rewrite Hl. simpl. now rewrite Hn.
Qed.

(** The fallback: the line before the last of the control is not an
    integer literal. *)
Lemma get_last_page_number_unparsable (ads : list str) (t line : str) :
  py_index (splitlines t) (-2) = Ok line ->
  int_of_str line = Raise ValueError ->
  get_last_page_number {| ad_texts := ads; pagination_text := Some t |} = Ok 2.
Proof.
  intros Hl Hn. unfold get_last_page_number. simpl.
  rewrite Hl. simpl. now rewrite Hn.
Qed.

(** A control of fewer than two lines is not covered by the fallback. *)
Lemma get_last_page_number_short (ads : list str) (t : str) :
  (length (splitlines t) < 2)%nat ->
  get_last_page_number {| ad_texts := ads; pagination_text := Some t |}
  = Raise IndexError.
Proof.
  intros H. unfold get_last_page_number. simpl.
  rewrite py_index_out_of_range by lia. reflexivity.
Qed.

Example last_page_of_control :
  get_last_page_number
    {| ad_texts := [];
       pagination_text := Some (lit "1" ++ newline ++ lit "2" ++ newline
                                ++ lit "17" ++ newline ++ lit ">" ++ newline) |}
  = Ok 17.
Proof. vm_compute. reflexivity. Qed.

Example last_page_fallback :
  get_last_page_number
    {| ad_texts := [];
       pagination_text := Some (lit "1" ++ newline ++ lit "..." ++ newline
                                ++ lit ">" ++ newline) |}
  = Ok 2.
Proof. vm_compute. reflexivity. Qed.

(** C3.  On a page without a pagination control [get_last_page_number]
    does not return 2: [soup.find] gives [None], reading [.text] from it
    raises [AttributeError], and the handler catches [ValueError] only. *)
Theorem get_last_page_number_without_control (ads : list str) :
  get_last_page_number {| ad_texts := ads; pagination_text := None |}
  = Raise AttributeError.
Proof. reflexivity. Qed.

(** ** The injected line *)

Lemma drop_injected_last (text : list str) (last_line : str) :
  drop_injected (text ++ [last_line])
  = Ok (if contains marker last_line then text else text ++ [last_line]).
Proof.
  unfold drop_injected. rewrite py_index_last. simpl.
  now rewrite removelast_last.
Qed.

Lemma fields_of_text_description (text : list str) (b : listing) :
  fields_of_text text = Ok b -> hd_error text = Some (description_of b).
Proof.
  unfold fields_of_text, positional. intros H.
  destruct (py_index text 0) as [d|] eqn:E0; try discriminate.
  apply py_index_first in E0. simpl in H.
  destruct (py_index text (-2)) as [x|]; try discriminate. simpl in H.
  destruct (py_index text (-3)) as [y|]; try discriminate. simpl in H.
  destruct (py_index text (-5)) as [z|]; try discriminate. simpl in H.
  destruct (normalize_distance x); try discriminate. simpl in H.
  destruct (normalize_price y); try discriminate. simpl in H.
  destruct (normalize_date z); try discriminate. simpl in H.
  inversion H; subst b. exact E0.
Qed.

(** An ad with the injected line at its end, and one whose description
    names the marker as well. *)
Definition injected_ad : str :=
  sample_ad (lit "Suzuki GS") (lit "11/98") (euro :: lit " 1.500")
            (lit "60.000 " ++ km)
  ++ injected_line ++ newline.

Definition marker_titled_ad : str :=
  sample_ad (lit "googletag bike") (lit "11/98") (euro :: lit " 1.500")
            (lit "60.000 " ++ km)
  ++ injected_line ++ newline.

Definition three_ads_page : soup :=
  {| ad_texts := [good_ad; injected_ad; good_ad]; pagination_text := None |}.

(** C8, as stated, fails: an ad whose last line holds the marker and
    whose first line names it too yields a listing, and the marker is in
    the description of that listing. *)
Lemma marker_in_description :
  (exists last_line, py_index (text_lines marker_titled_ad) (-1) = Ok last_line
                     /\ contains marker last_line = true)
  /\ exists b, bike_of_ad marker_titled_ad = Ok b
               /\ contains marker (description_of b) = true.
Proof.
  split.
  - exists injected_line. split; vm_compute; reflexivity.
  - eexists. split; vm_compute; reflexivity.
Qed.

(** C8, amended.  When the last non-blank line of an ad holds the marker,
    that line is dropped before the fields are read: the ad yields what
    its other lines yield, a listing or an exception, and the description
    of a listing is the first of those lines, so the marker is in a field
    only if the first line holds it.  A page of three well-formed ads, one
    of them with the injected line, yields three listings without the
    marker. *)
Theorem injected_line_is_dropped (ad : str) (text : list str) (last_line : str) :
  text_lines ad = text ++ [last_line] ->
  contains marker last_line = true ->
  bike_of_ad ad = fields_of_text text
  /\ (forall b, bike_of_ad ad = Ok b -> hd_error text = Some (description_of b))
  /\ exists b1 b2 b3,
       get_page_bikes three_ads_page = Ok [b1; b2; b3]
       /\ Forall (fun b => contains marker (description_of b) = false)
                 [b1; b2; b3].
Proof.
  intros Ht Hm.
  assert (H : bike_of_ad ad = fields_of_text text).
  { unfold bike_of_ad. rewrite Ht, drop_injected_last, Hm. reflexivity. }
  split; [exact H|]. split.
  - intros b Hb. rewrite H in Hb. now apply fields_of_text_description.
  - do 3 eexists. split.
    + vm_compute. reflexivity.
    + repeat constructor.
Qed.

Lemma injected_line_is_dropped_witness :
  bike_of_ad injected_ad
  = fields_of_text [lit "Suzuki GS"; lit "11/98"; lit "600 cc";
                    euro :: lit " 1.500"; lit "60.000 " ++ km; lit "Athens"].
Proof.
  apply (injected_line_is_dropped injected_ad _ injected_line).
  - vm_compute. reflexivity.
  - vm_compute. reflexivity.
Defined.

(** ** The number of lines of an ad *)

Lemma positional_short (text : list str) :
  (length text < 5)%nat -> positional text = Raise IndexError.
Proof.
  intros H.
  destruct text as [|a [|b [|c [|d [|e text]]]]]; simpl in H; try lia;
    reflexivity.
Qed.

Lemma positional_defined (text : list str) :
  (5 <= length text)%nat -> exists fields, positional text = Ok fields.
Proof.
  intros H. unfold positional.
  destruct (py_index_in_range text 0) as [a ->]; [lia|].
  destruct (py_index_in_range text (-2)) as [b ->]; [lia|].
  destruct (py_index_in_range text (-3)) as [c ->]; [lia|].
  destruct (py_index_in_range text (-5)) as [d ->]; [lia|].
  simpl. eauto.
Qed.

(** C10.  The fields of an ad are read only when the ad has a line to
    test for the marker and, after the cleanup, at least five lines.
    Without any line the test of [text[-1]] raises [IndexError]; with
    fewer than five lines after the cleanup the subscripts of line 145
    raise [IndexError]; either way the exception leaves the loop, so the
    page raises it and the ad is not skipped.  With five lines or more
    the four subscripts are defined. *)
Theorem positional_precondition (ad : str) :
  (text_lines ad = [] ->
   drop_injected (text_lines ad) = Raise IndexError
   /\ bike_of_ad ad = Raise IndexError)
  /\ (text_lines ad <> [] -> exists text,
        drop_injected (text_lines ad) = Ok text
        /\ ((length text < 5)%nat ->
            positional text = Raise IndexError
            /\ bike_of_ad ad = Raise IndexError
            /\ forall before after pg,
                 Forall (fun a => exists b, bike_of_ad a = Ok b) before ->
                 get_page_bikes {| ad_texts := before ++ ad :: after;
                                   pagination_text := pg |}
                 = Raise IndexError)
        /\ ((5 <= length text)%nat ->
            exists fields, positional text = Ok fields)).
Proof.
  split.
  - intros H. unfold bike_of_ad. rewrite H. split; reflexivity.
  - intros H.
    destruct (exists_last H) as [text [last_line Ht]].
    exists (if contains marker last_line then text else text ++ [last_line]).
    assert (Hd : drop_injected (text_lines ad)
                 = Ok (if contains marker last_line
                       then text else text ++ [last_line])).
    { rewrite Ht. apply drop_injected_last. }
    split; [exact Hd|]. split.
    + intros Hlen.
      assert (Hp := positional_short _ Hlen).
      assert (Hb : bike_of_ad ad = Raise IndexError).
      { unfold bike_of_ad. rewrite Hd. simpl.
        unfold fields_of_text. now rewrite Hp. }
      repeat split; auto.
      intros before after pg Hbefore.
      rewrite get_page_bikes_mapM. now apply mapM_raise.
    + apply positional_defined.
Qed.

Lemma positional_precondition_witness :
  bike_of_ad (lit "Honda CBR" ++ newline ++ lit "07/05" ++ newline)
  = Raise IndexError.
Proof.
  destruct (positional_precondition
              (lit "Honda CBR" ++ newline ++ lit "07/05" ++ newline))
    as [_ H].
  destruct H as [text [Hd [Hshort _]]].
  - vm_compute. discriminate.
  - apply Hshort.
    vm_compute in Hd. inversion Hd; subst text. simpl. lia.
Defined.

(** ** [normalize_url] *)

(** *** What a match covers *)

Lemma strip_prefix_app (w s r : str) :
  strip_prefix w s = Some r -> s = w ++ r.
Proof.
  revert s. induction w as [|x w IH]; intros s H; simpl in H.
  - now inversion H.
  - destruct s as [|y s]; try discriminate.
    unfold char_eqb in H. destruct (x =? y)%N eqn:E; try discriminate.
    apply N.eqb_eq in E. subst y. simpl. f_equal. auto.
Qed.

Lemma strip_prefix_self (w s : str) : strip_prefix w (w ++ s) = Some s.
Proof.
  induction w as [|x w IH]; simpl; auto.
  unfold char_eqb. now rewrite N.eqb_refl.
Qed.

Lemma greedy_concat (cls : char -> bool) (k : str -> option (list str * str)) :
  (forall s segs rest, k s = Some (segs, rest) -> s = concat segs ++ rest) ->
  forall s taken segs rest,
    greedy cls k s taken = Some (segs, rest) ->
    taken ++ s = concat segs ++ rest.
Proof.
  intros Hk.
  assert (Hc : forall s taken segs rest,
             continue_with k taken s = Some (segs, rest) ->
             taken ++ s = concat segs ++ rest).
  { intros s taken segs rest H. unfold continue_with in H.
    destruct (k s) as [[segs' rest']|] eqn:E; try discriminate.
    inversion H; subst. apply Hk in E. subst s. simpl.
    now rewrite app_assoc. }
  intros s. induction s as [|c s IH]; intros taken segs rest H; simpl in H.
  - now apply Hc.
  - destruct (cls c).
    + destruct (greedy cls k s (taken ++ [c])) as [r|] eqn:E.
      * inversion H; subst r. apply IH in E.
        now rewrite <- app_assoc in E.
      * now apply Hc.
    + now apply Hc.
Qed.

Lemma rmatch_concat (p : pattern) (s : str) (segs : list str) (rest : str) :
  rmatch p s = Some (segs, rest) -> s = concat segs ++ rest.
Proof.
  revert s segs rest. induction p as [|pc p IH]; intros s segs rest H.
  - simpl in H. now inversion H.
  - destruct pc as [w|cls|cls]; simpl in H.
    + destruct (strip_prefix w s) as [s'|] eqn:E; try discriminate.
      destruct (rmatch p s') as [[segs' rest']|] eqn:R; try discriminate.
      inversion H; subst. apply strip_prefix_app in E. apply IH in R.
      subst. simpl. now rewrite app_assoc.
    + apply (greedy_concat cls (rmatch p) IH) in H. exact H.
    + destruct s as [|c s]; try discriminate.
      destruct (cls c); try discriminate.
      apply (greedy_concat cls (rmatch p) IH) in H. exact H.
Qed.

(** *** The substitution keeps the characters of the url *)

Lemma Forall_concat_nth (P : char -> Prop) (segs : list str) (i : nat) :
  Forall P (concat segs) -> Forall P (nth i segs []).
Proof.
  revert i. induction segs as [|x segs IH]; intros i H.
  - destruct i; constructor.
  - simpl in H. apply Forall_app in H. destruct H as [Hx Hs].
    destruct i; simpl; auto.
Qed.

Lemma pg_replacement_Forall (P : char -> Prop) (s rest : str) (segs : list str) :
  rmatch pg_pattern s = Some (segs, rest) ->
  Forall P s ->
  Forall P (pg_replacement segs) /\ Forall P rest.
Proof.
  intros H Hs. apply rmatch_concat in H. subst s.
  apply Forall_app in Hs. destruct Hs as [Hc Hr].
  split; [|exact Hr].
  unfold pg_replacement. apply Forall_app.
  split; now apply Forall_concat_nth.
Qed.

Lemma sub_scan_Forall (P : char -> Prop) (fuel : nat) (s : str) :
  Forall P s -> Forall P (sub_scan pg_pattern pg_replacement fuel s).
Proof.
  revert s. induction fuel as [|f IH]; intros s Hs; cbn [sub_scan].
  - destruct (rmatch pg_pattern s) as [[segs rest]|] eqn:E; auto.
    destruct (pg_replacement_Forall P _ _ _ E Hs).
    now apply Forall_app.
  - destruct (rmatch pg_pattern s) as [[segs rest]|] eqn:E.
    + destruct (pg_replacement_Forall P _ _ _ E Hs) as [Hr Hrest].
      destruct (length rest <? length s)%nat.
      * apply Forall_app. auto.
      * apply Forall_app. split; auto.
        destruct s as [|c s]; auto.
        inversion Hs; subst. constructor; auto.
    + destruct s as [|c s]; auto.
      inversion Hs; subst. constructor; auto.
Qed.

Lemma re_sub_Forall (P : char -> Prop) (s : str) :
  Forall P s -> Forall P (re_sub pg_pattern pg_replacement s).
Proof. apply sub_scan_Forall. Qed.

(** *** The match on an instantiated template *)

(** What follows the first group in the pattern. *)
Definition pg_tail : pattern := [Lit (lit "&pg="); Plus digit09; Star dot].

Lemma pg_tail_needs_amp (s : str) :
  hd_error s <> Some 38%N -> rmatch pg_tail s = None.
Proof.
  intros H. destruct s as [|c s]; [reflexivity|].
  unfold pg_tail. cbn [rmatch].
  change (lit "&pg=") with (38%N :: lit "pg="). cbn [strip_prefix].
  unfold char_eqb. destruct (38 =? c)%N eqn:E; [|reflexivity].
  apply N.eqb_eq in E. subst c. now elim H.
Qed.

Lemma greedy_without_amp (s taken : str) :
  ~ In 38%N s -> greedy dot (rmatch pg_tail) s taken = None.
Proof.
  revert taken. induction s as [|c s IH]; intros taken Hn.
  - reflexivity.
  - assert (Hc : continue_with (rmatch pg_tail) taken (c :: s) = None).
    { unfold continue_with. rewrite pg_tail_needs_amp; [reflexivity|].
      simpl. intros [= ->]. apply Hn. now left. }
    cbn [greedy]. rewrite IH by (intros Hin; apply Hn; now right).
    rewrite Hc. now destruct (dot c).
Qed.

Lemma greedy_takes_all (cls : char -> bool)
      (k : str -> option (list str * str)) (segs : list str) (rest : str) :
  k [] = Some (segs, rest) ->
  forall ds taken,
    Forall (fun c => cls c = true) ds ->
    greedy cls k ds taken = Some ((taken ++ ds) :: segs, rest).
Proof.
  intros Hk ds taken H. revert taken.
  induction H as [|c ds Hc _ IH]; intros taken.
  - cbn [greedy]. unfold continue_with. rewrite Hk. now rewrite app_nil_r.
  - cbn [greedy]. rewrite Hc. rewrite IH.
    now rewrite <- app_assoc.
Qed.

Lemma digit_is_not_amp (ds : str) :
  Forall (fun c => is_digit c = true) ds -> ~ In 38%N ds.
Proof.
  intros H Hin. rewrite Forall_forall in H. apply H in Hin. discriminate.
Qed.

Lemma pg_tail_on_page (d : char) (ds : str) :
  Forall (fun c => is_digit c = true) (d :: ds) ->
  rmatch pg_tail (lit "&pg=" ++ d :: ds)
  = Some ([lit "&pg="; d :: ds; []], []).
Proof.
  intros H. inversion H as [|? ? Hd Hds]; subst.
  unfold pg_tail. cbn [rmatch]. rewrite strip_prefix_self.
  unfold digit09 at 1. rewrite Hd.
  rewrite (greedy_takes_all digit09 _ [[]] []); auto.
Qed.

(** The first group takes everything, then gives characters back until
    the rest of the pattern matches: on a template instantiated with a
    page number, that is at the appended parameter. *)
Lemma greedy_gives_back (t : str) (r : list str * str) :
  rmatch pg_tail t = Some r ->
  (forall taken, greedy dot (rmatch pg_tail) t taken
                 = continue_with (rmatch pg_tail) taken t) ->
  forall b taken,
    Forall (fun c => dot c = true) b ->
    greedy dot (rmatch pg_tail) (b ++ t) taken
    = continue_with (rmatch pg_tail) (taken ++ b) t.
Proof.
  intros Hr Ht b. induction b as [|c b IH]; intros taken Hb.
  - simpl. rewrite app_nil_r. apply Ht.
  - inversion Hb as [|? ? Hc Hb']; subst.
    cbn [app greedy]. rewrite Hc. rewrite (IH _ Hb').
    unfold continue_with at 1. rewrite Hr. destruct r as [segs rest].
    unfold continue_with. rewrite Hr.
    now rewrite <- app_assoc.
Qed.

Lemma rmatch_instance (b ds : str) (d : char) :
  Forall (fun c => dot c = true) b ->
  Forall (fun c => is_digit c = true) (d :: ds) ->
  rmatch pg_pattern (b ++ lit "&pg=" ++ d :: ds)
  = Some ([b; lit "&pg="; d :: ds; []], []).
Proof.
  intros Hb Hd.
  change (rmatch pg_pattern (b ++ lit "&pg=" ++ d :: ds))
    with (greedy dot (rmatch pg_tail) (b ++ lit "&pg=" ++ d :: ds) []).
  rewrite (greedy_gives_back _ _ (pg_tail_on_page d ds Hd)); auto.
  - unfold continue_with. now rewrite (pg_tail_on_page d ds Hd).
  - intros taken.
    change (lit "&pg=" ++ d :: ds) with (38%N :: lit "pg=" ++ d :: ds).
    cbn [greedy]. change (dot 38%N) with true. cbv iota.
    rewrite greedy_without_amp; [reflexivity|].
    change (lit "pg=" ++ d :: ds) with (112 :: 103 :: 61 :: d :: ds)%N.
    intros [H|[H|[H|H]]]; try discriminate.
    revert H. now apply digit_is_not_amp.
Qed.

Lemma sub_scan_nil (fuel : nat) :
  sub_scan pg_pattern pg_replacement fuel [] = [].
Proof. destruct fuel; reflexivity. Qed.

Lemma re_sub_instance (b ds : str) (d : char) :
  Forall (fun c => dot c = true) b ->
  Forall (fun c => is_digit c = true) (d :: ds) ->
  re_sub pg_pattern pg_replacement (b ++ lit "&pg=" ++ d :: ds) = b.
Proof.
  intros Hb Hd. unfold re_sub.
  set (s := b ++ lit "&pg=" ++ d :: ds).
  assert (Hlen : length s = S (length b + 4 + length ds)).
  { subst s. rewrite length_app. simpl. lia. }
  rewrite Hlen. cbn [sub_scan]. subst s.
  rewrite (rmatch_instance b ds d Hb Hd).
  rewrite Hlen. cbn [length].
  destruct (Nat.ltb_spec 0 (S (length b + 4 + length ds))); try lia.
  rewrite sub_scan_nil. unfold pg_replacement. simpl.
  now rewrite !app_nil_r.
Qed.

(** *** Instantiating a template *)

Lemma digits_of_digits (fuel : nat) (n : N) (acc : str) :
  exists d ds,
    digits_of fuel n acc = (d :: ds) ++ acc
    /\ Forall (fun c => is_digit c = true) (d :: ds).
Proof.
  assert (Hd : forall m : N, is_digit (48 + m mod 10)%N = true).
  { intros m. unfold is_digit.
    assert (Hlt : (m mod 10 < 10)%N) by (apply N.mod_lt; discriminate).
    revert Hlt. generalize (m mod 10)%N. intros r Hlt.
    apply andb_true_intro. split; apply N.leb_le; lia. }
  revert n acc. induction fuel as [|f IH]; intros n acc.
  - exists (48 + n mod 10)%N, []. split; [reflexivity|].
    constructor; [apply Hd | constructor].
  - cbn [digits_of]. destruct (n <? 10)%N.
    + exists (48 + n mod 10)%N, []. split; [reflexivity|].
      constructor; [apply Hd | constructor].
    + destruct (IH (n / 10)%N ((48 + n mod 10)%N :: acc))
        as [d [ds [E F]]].
      exists d, (ds ++ [(48 + n mod 10)%N]). split.
      * rewrite E. simpl. now rewrite <- app_assoc.
      * inversion F; subst. constructor; auto.
        apply Forall_app. split; auto.
Qed.

Lemma str_of_int_digits (n : Z) :
  0 <= n ->
  exists d ds, str_of_int n = d :: ds
               /\ Forall (fun c => is_digit c = true) (d :: ds).
Proof.
  intros H. unfold str_of_int.
  destruct (Z.ltb_spec n 0); try lia.
  destruct (digits_of_digits (N.size_nat (Z.abs_N n)) (Z.abs_N n) [])
    as [d [ds [E F]]].
  exists d, ds. rewrite E. now rewrite app_nil_r.
Qed.

Definition is_brace (c : char) : bool := ((c =? 123) || (c =? 125))%N.

Lemma format_scan_literal (b rest : str) (page : Z) :
  Forall (fun c => is_brace c = false) b ->
  format_scan (b ++ rest) None page
  = (r <- format_scan rest None page ;; Ok (b ++ r)).
Proof.
  intros H. induction H as [|c b Hc _ IH].
  - simpl. now destruct (format_scan rest None page).
  - unfold is_brace in Hc. apply orb_false_elim in Hc. destruct Hc as [H1 H2].
    cbn [app format_scan]. rewrite H1, H2. rewrite IH.
    now destruct (format_scan rest None page).
Qed.

Lemma format_page_parameter (page : Z) :
  format_scan (lit "&pg={page}") None page = Ok (lit "&pg=" ++ str_of_int page).
Proof.
  change (lit "&pg={page}")
    with ([38; 112; 103; 61; 123; 112; 97; 103; 101; 125]%N).
  cbn [format_scan N.eqb Pos.eqb app bind]. unfold field_value.
  change (existsb is_field_syntax [112; 97; 103; 101]%N) with false.
  change (str_eqb [112; 97; 103; 101]%N (lit "page")) with true.
  cbn [bind]. now rewrite app_nil_r.
Qed.

Lemma format_page_template (b : str) (page : Z) :
  Forall (fun c => is_brace c = false) b ->
  format_page (b ++ lit "&pg={page}") page
  = Ok (b ++ lit "&pg=" ++ str_of_int page).
Proof.
  intros H. unfold format_page.
  rewrite (format_scan_literal _ _ _ H), format_page_parameter.
  reflexivity.
Qed.

(** *** The round trip *)

(** A template the user may well pass: the page parameter is already a
    replacement field. *)
Definition templated_url : str := lit "http://www.car.gr/bikes?pg={page}".

(** C7, as stated, fails: for a url that holds a replacement field, the
    template instantiated with page 2 normalizes to another template. *)
Lemma normalize_url_round_trip_differs :
  exists instance,
    format_page (normalize_url templated_url) 2 = Ok instance
    /\ normalize_url instance <> normalize_url templated_url.
Proof.
  eexists. split.
  - vm_compute. reflexivity.
  - vm_compute. discriminate.
Qed.

Example normalize_url_braces_raise :
  format_page (normalize_url (lit "http://www.car.gr/bikes?q={a}")) 2
  = Raise KeyError.
Proof. vm_compute. reflexivity. Qed.

Example normalize_url_strips_page :
  normalize_url (lit "http://www.car.gr/bikes?fs=1&pg=3&condition=used")
  = lit "http://www.car.gr/bikes?fs=1&condition=used&pg={page}".
Proof. vm_compute. reflexivity. Qed.

(** C7, amended.  For a url without braces and without a newline, and a
    page number that is not negative, the template can be instantiated,
    and normalizing the instance yields the template again. *)
Theorem normalize_url_round_trip (url : str) (page : Z) :
  Forall (fun c => is_brace c = false) url ->
  Forall (fun c => dot c = true) url ->
  0 <= page ->
  exists instance,
    format_page (normalize_url url) page = Ok instance
    /\ normalize_url instance = normalize_url url.
Proof.
  intros Hbrace Hdot Hpage.
  set (b := re_sub pg_pattern pg_replacement url).
  assert (Hb1 : Forall (fun c => is_brace c = false) b)
    by now apply re_sub_Forall.
  assert (Hb2 : Forall (fun c => dot c = true) b)
    by now apply re_sub_Forall.
  destruct (str_of_int_digits page Hpage) as [d [ds [E F]]].
  exists (b ++ lit "&pg=" ++ d :: ds). split.
  - unfold normalize_url. fold b. rewrite <- E.
    now apply format_page_template.
  - unfold normalize_url at 1.
    rewrite (re_sub_instance b ds d Hb2 F). reflexivity.
Qed.

Lemma normalize_url_round_trip_witness :
  exists instance,
    format_page
      (normalize_url (lit "http://www.car.gr/bikes?fs=1&pg=3&condition=used"))
      7 = Ok instance
    /\ normalize_url instance
       = normalize_url (lit "http://www.car.gr/bikes?fs=1&pg=3&condition=used").
Proof.
  apply (normalize_url_round_trip
           (lit "http://www.car.gr/bikes?fs=1&pg=3&condition=used") 7).
  - repeat constructor.
  - repeat constructor.
  - lia.
Defined.

(** ** The crawl *)

Lemma py_range_In (lo hi p : Z) : In p (py_range lo hi) <-> lo <= p < hi.
Proof.
  unfold py_range. rewrite in_map_iff. split.
  - intros [i [E Hi]]. apply in_seq in Hi. lia.
  - intros H. exists (Z.to_nat (p - lo)). split; [lia|].
    apply in_seq. lia.
Qed.

Lemma py_range_sorted (lo hi : Z) : StronglySorted Z.lt (py_range lo hi).
Proof.
  unfold py_range. generalize (Z.to_nat (hi - lo)) as n.
  intros n. generalize 0%nat as start. induction n as [|n IH]; intros start.
  - constructor.
  - simpl. constructor; [apply IH|].
    apply Forall_forall. intros p Hp.
    apply in_map_iff in Hp. destruct Hp as [i [E Hi]].
    apply in_seq in Hi. lia.
Qed.

Lemma opened_app (t1 t2 : list event) :
  opened (t1 ++ t2) = opened t1 ++ opened t2.
Proof. unfold opened. now rewrite flat_map_app. Qed.

Lemma opened_pages (page_url : Z -> str) (indices : list Z) :
  opened (flat_map (fun p => [LogRetrieving p; Open (page_url p)]) indices)
  = map page_url indices.
Proof.
  induction indices as [|p indices IH]; simpl; auto.
  now rewrite <- IH.
Qed.

Section CrawlProperties.

Variable site : str -> result soup.
Variable template : str.
Variable page_url : Z -> str.
Variable pages : Z -> soup.
Variable bikes : Z -> list listing.

(** Page [p] can be built, fetched and read. *)
Definition page_served (p : Z) : Prop :=
  format_page template p = Ok (page_url p)
  /\ site (page_url p) = Ok (pages p)
  /\ get_page_bikes (pages p) = Ok (bikes p).

Lemma pages_loop_served (indices : list Z) (data : list listing) :
  Forall page_served indices ->
  pages_loop site template indices data
  = (flat_map (fun p => [LogRetrieving p; Open (page_url p)]) indices,
     Ok (data ++ concat (map bikes indices))).
Proof.
  intros H. revert data.
  induction H as [|p indices [Hf [Hs Hb]] _ IH]; intros data.
  - simpl. now rewrite app_nil_r.
  - cbn [pages_loop]. unfold get_soup. rewrite Hf. cbn.
    rewrite Hs. cbn. rewrite Hb. cbn.
    rewrite IH. cbn. now rewrite <- app_assoc.
Qed.

End CrawlProperties.

(** The fixture of two pages: listings A and B on the first page, C on the
    second. *)
Definition fixture_url : str := lit "http://www.car.gr/bikes?fs=1".

Definition ad_A : str :=
  sample_ad (lit "Honda CBR") (lit "03/12") (euro :: lit " 3.500")
            (lit "12.000 " ++ km).
Definition ad_B : str := good_ad.
Definition ad_C : str := injected_ad.

Definition listing_A : listing :=
  (lit "Honda CBR", 12000, 3500, {| year := 2012; month := 3; day := 1 |}).
Definition listing_B : listing := good_listing.
Definition listing_C : listing :=
  (lit "Suzuki GS", 60000, 1500, {| year := 2088; month := 11; day := 1 |}).

Definition fixture_page (p : Z) : soup :=
  if p =? 1 then
    {| ad_texts := [ad_A; ad_B];
       pagination_text := Some (lit "1" ++ newline ++ lit "2" ++ newline
                                ++ lit ">" ++ newline) |}
  else {| ad_texts := [ad_C]; pagination_text := None |}.

Definition fixture_page_url (p : Z) : str :=
  fixture_url ++ lit "&pg=" ++ str_of_int p.

Definition fixture_site (url : str) : result soup :=
  if str_eqb url (fixture_page_url 1) then Ok (fixture_page 1)
  else if str_eqb url (fixture_page_url 2) then Ok (fixture_page 2)
  else Raise URLError.

Definition fixture_bikes (p : Z) : list listing :=
  if p =? 1 then [listing_A; listing_B] else [listing_C].

(** C9.  When page 1 and the pages from 2 to the count read from page 1
    can be built, fetched and read, [get_data] opens page 1, then the
    pages 2 to the count in increasing order, each after a line of log,
    and returns the listings of the pages one after the other in that
    order. *)
Theorem get_data_crawls_in_order
        (site : str -> result soup) (url : str) (page_url : Z -> str)
        (pages : Z -> soup) (bikes : Z -> list listing) (total : Z) :
  (forall p, p = 1 \/ 2 <= p <= total ->
             page_served site (normalize_url url) page_url pages bikes p) ->
  get_last_page_number (pages 1) = Ok total ->
  let indices := 1 :: py_range 2 (total + 1) in
  (forall p, In p indices <-> p = 1 \/ 2 <= p <= total)
  /\ StronglySorted Z.lt indices
  /\ fst (get_data site url)
     = LogStart
       :: flat_map (fun p => [LogRetrieving p; Open (page_url p)]) indices
       ++ [LogFinished]
  /\ opened (fst (get_data site url)) = map page_url indices
  /\ snd (get_data site url) = Ok (concat (map bikes indices)).
Proof.
  intros Hserved Hlast indices.
  assert (Hin : forall p, In p indices <-> p = 1 \/ 2 <= p <= total).
  { intros p. unfold indices. simpl. rewrite py_range_In. lia. }
  assert (Hrest : Forall (page_served site (normalize_url url)
                                      page_url pages bikes)
                         (py_range 2 (total + 1))).
  { apply Forall_forall. intros p Hp. apply Hserved.
    apply py_range_In in Hp. lia. }
  destruct (Hserved 1 (or_introl eq_refl)) as [Hf [Hs Hb]].
  assert (Hrun : get_data site url
                 = (LogStart
                    :: flat_map (fun p => [LogRetrieving p; Open (page_url p)])
                                indices
                    ++ [LogFinished],
                    Ok (concat (map bikes indices)))).
  { unfold get_data, get_soup. cbn zeta. rewrite Hf. cbn.
    rewrite Hs. cbn. rewrite Hb. cbn. rewrite Hlast. cbn.
    rewrite (pages_loop_served site _ page_url pages bikes _ _ Hrest).
    cbn. unfold indices. cbn. reflexivity. }
  split; [exact Hin|]. split.
  - unfold indices. constructor; [apply py_range_sorted|].
    apply Forall_forall. intros p Hp. apply py_range_In in Hp. lia.
  - rewrite Hrun. cbn [fst snd]. repeat split.
    change (LogStart
            :: flat_map (fun p => [LogRetrieving p; Open (page_url p)]) indices
            ++ [LogFinished])
      with ([LogStart]
            ++ flat_map (fun p => [LogRetrieving p; Open (page_url p)]) indices
            ++ [LogFinished]).
    rewrite !opened_app, opened_pages. cbn. now rewrite app_nil_r.
Qed.

Lemma get_data_crawls_in_order_witness :
  snd (get_data fixture_site fixture_url)
  = Ok [listing_A; listing_B; listing_C].
Proof.
  apply (get_data_crawls_in_order
           fixture_site fixture_url fixture_page_url fixture_page
           fixture_bikes 2).
  - intros p [Hp|Hp]; [|assert (p = 2) by lia]; subst p;
      repeat split; vm_compute; reflexivity.
  - vm_compute. reflexivity.
Defined.

(** * Further properties of the scraper *)

(** ** What the parts can raise *)

Lemma py_index_raises {A : Type} (l : list A) (i : Z) (e : exn) :
  py_index l i = Raise e -> e = IndexError.
Proof.
  unfold py_index.
  destruct ((0 <=? (if i <? 0 then i + Z.of_nat (length l) else i))
            && ((if i <? 0 then i + Z.of_nat (length l) else i)
                <? Z.of_nat (length l))).
  - destruct (nth_error l _); [discriminate|]. now intros [= <-].
  - now intros [= <-].
Qed.

Lemma int_of_str_raises (s : str) (e : exn) :
  int_of_str s = Raise e -> e = ValueError.
Proof.
  unfold int_of_str.
  destruct (remove_underscores false (c_strip (map to_ascii s))) as [u|];
    [|now intros [= <-]].
  destruct (read_sign u) as [neg v].
  destruct (all_digits v); [discriminate|]. now intros [= <-].
Qed.

Lemma float_of_str_raises (s : str) (e : exn) :
  float_of_str s = Raise e -> e = ValueError.
Proof.
  unfold float_of_str.
  destruct (remove_underscores false (c_strip (map to_ascii s))) as [u|];
    [|now intros [= <-]].
  destruct (read_sign u) as [neg v].
  destruct (str_eqb (map lower v) (lit "inf")
            || str_eqb (map lower v) (lit "infinity")); [discriminate|].
  destruct (str_eqb (map lower v) (lit "nan")); [discriminate|].
  destruct (span_digits v) as [ip r1].
  destruct (match r1 with
            | [] => ([], [])
            | c :: r => if (c =? 46)%N then span_digits r else ([], r1)
            end) as [fp r2].
  destruct (ip ++ fp); [now intros [= <-]|].
  destruct (read_exponent r2); [|now intros [= <-]].
  destruct (digits_value _); discriminate.
Qed.

Lemma int_of_float_raises (x : spec_float) (e : exn) :
  int_of_float x = Raise e -> e = OverflowError \/ e = ValueError.
Proof.
  destruct x; simpl; try discriminate; intros [= <-]; auto.
Qed.

Lemma float_mul_int_1000 (x : spec_float) :
  exists y, float_mul_int x 1000 = Ok y.
Proof.
  unfold float_mul_int.
  replace (float_of_int 1000)
    with (Ok (S754_finite false 8796093022208000 (-43)))
    by (vm_compute; reflexivity).
  simpl. eauto.
Qed.

Lemma date_new_raises (y m d : Z) (e : exn) :
  date_new y m d = Raise e -> e = OverflowError \/ e = ValueError.
Proof.
  unfold date_new.
  repeat match goal with
         | |- context [if negb ?b then _ else _] => destruct b; simpl
         end;
    try discriminate; intros [= <-]; auto.
Qed.

Lemma date_new_valid (y m d : Z) (dt : date) :
  date_new y m d = Ok dt ->
  dt = {| year := y; month := m; day := d |}
  /\ 1 <= y <= 9999 /\ 1 <= m <= 12 /\ 1 <= d <= days_in_month y m.
Proof.
  unfold date_new.
  destruct (fits_c_int y && fits_c_int m && fits_c_int d); simpl;
    [|discriminate].
  destruct ((1 <=? y) && (y <=? 9999)) eqn:Ey; simpl; [|discriminate].
  destruct ((1 <=? m) && (m <=? 12)) eqn:Em; simpl; [|discriminate].
  destruct ((1 <=? d) && (d <=? days_in_month y m)) eqn:Ed; simpl;
    [|discriminate].
  intros [= <-].
  apply andb_prop in Ey, Em, Ed.
  destruct Ey as [Ey1 Ey2], Em as [Em1 Em2], Ed as [Ed1 Ed2].
  apply Z.leb_le in Ey1, Ey2, Em1, Em2, Ed1, Ed2.
  repeat split; auto.
Qed.

Lemma thousands_raises (token : str) (e : exn) :
  (x <- float_of_str token ;; y <- float_mul_int x 1000 ;; int_of_float y)
  = Raise e ->
  e = ValueError \/ e = OverflowError.
Proof.
  destruct (float_of_str token) as [x|e'] eqn:E; cbn [bind].
  - destruct (float_mul_int_1000 x) as [y ->]. cbn [bind].
    intros H. apply int_of_float_raises in H. tauto.
  - intros [= <-]. apply float_of_str_raises in E. auto.
Qed.

Lemma normalize_distance_raises (distance : str) (e : exn) :
  normalize_distance distance = Raise e ->
  e = ValueError \/ e = OverflowError.
Proof.
  unfold normalize_distance. destruct (contains (lit ".") distance).
  - apply thousands_raises.
  - intros H. apply int_of_str_raises in H. auto.
Qed.

Lemma normalize_price_raises (price : str) (e : exn) :
  normalize_price price = Raise e ->
  e = ValueError \/ e = OverflowError \/ e = NameError.
Proof.
  unfold normalize_price. destruct (contains (lit ".") price).
  - intros H. apply thousands_raises in H. tauto.
  - intros [= <-]. auto.
Qed.

Lemma normalize_date_raises (token : str) (e : exn) :
  normalize_date token = Raise e -> e = ValueError \/ e = OverflowError.
Proof.
  unfold normalize_date.
  destruct (split 47%N token) as [|m [|y [|z parts]]];
    try (intros [= <-]; now auto).
  destruct (int_of_str m) eqn:Em; simpl.
  - destruct (int_of_str y) eqn:Ey; simpl.
    + intros H. apply date_new_raises in H. tauto.
    + intros [= <-]. apply int_of_str_raises in Ey. auto.
  - intros [= <-]. apply int_of_str_raises in Em. auto.
Qed.

Lemma drop_injected_raises (text : list str) (e : exn) :
  drop_injected text = Raise e -> e = IndexError /\ text = [].
Proof.
  destruct text as [|l text].
  - intros [= <-]. auto.
  - destruct (exists_last (l := l :: text)) as [t [x E]]; [discriminate|].
    rewrite E, drop_injected_last. discriminate.
Qed.

Lemma positional_raises (text : list str) (e : exn) :
  positional text = Raise e -> e = IndexError /\ (length text < 5)%nat.
Proof.
  intros H. destruct (Nat.lt_ge_cases (length text) 5) as [Hl|Hl].
  - rewrite positional_short in H by exact Hl. now inversion H.
  - destruct (positional_defined text Hl) as [f Hf]. congruence.
Qed.

(** ** The lines of an ad *)

(** A string that does not begin with white space. *)
Definition no_leading_space (s : str) : Prop :=
  match s with
  | c :: _ => isspace c = false
  | [] => True
  end.

Lemma lstrip_no_leading_space (s : str) : no_leading_space (lstrip s).
Proof.
  induction s as [|c s IH]; simpl; auto.
  destruct (isspace c) eqn:E; simpl; auto.
Qed.

Lemma lstrip_fixed (s : str) : no_leading_space s -> lstrip s = s.
Proof.
  destruct s as [|c s]; simpl; auto. now intros ->.
Qed.

Lemma lstrip_suffix (s : str) : exists p, s = p ++ lstrip s.
Proof.
  induction s as [|c s [p IH]]; simpl.
  - now exists [].
  - destruct (isspace c).
    + exists (c :: p). simpl. now f_equal.
    + now exists [].
Qed.

(** A stripped string neither begins nor ends with white space. *)
Lemma strip_ends (s : str) :
  no_leading_space (strip s) /\ no_leading_space (rev (strip s)).
Proof.
  unfold strip, rstrip.
  pose proof (lstrip_no_leading_space s) as Hx.
  set (x := lstrip s) in *.
  pose proof (lstrip_no_leading_space (rev x)) as Hy.
  destruct (lstrip_suffix (rev x)) as [p Hp].
  set (y := lstrip (rev x)) in *. clearbody y x.
  split.
  - assert (Hxy : x = rev y ++ rev p).
    { rewrite <- rev_app_distr, <- Hp. now rewrite rev_involutive. }
    destruct (rev y) as [|c r]; [exact I|].
    rewrite Hxy in Hx. exact Hx.
  - now rewrite rev_involutive.
Qed.

Lemma strip_idempotent (s : str) : strip (strip s) = strip s.
Proof.
  destruct (strip_ends s) as [H1 H2].
  unfold strip at 1. rewrite (lstrip_fixed _ H1).
  unfold rstrip. rewrite (lstrip_fixed _ H2). apply rev_involutive.
Qed.

Lemma text_lines_ends (ad_text : str) :
  Forall (fun line => line <> []
                      /\ no_leading_space line
                      /\ no_leading_space (rev line)
                      /\ strip line = line)
         (text_lines ad_text).
Proof.
  unfold text_lines. apply Forall_forall. intros line Hin.
  apply in_map_iff in Hin. destruct Hin as [raw [<- Hraw]].
  apply filter_In in Hraw. destruct Hraw as [_ Ht].
  destruct (strip_ends raw) as [H1 H2].
  repeat split; auto using strip_idempotent.
  intros E. rewrite E in Ht. discriminate.
Qed.

(** X1.  Every line that line 141 keeps is non-empty and neither begins
    nor ends with white space: stripping it again changes nothing. *)
Theorem text_lines_stripped (ad_text : str) :
  Forall (fun line => line <> []
                      /\ no_leading_space line
                      /\ no_leading_space (rev line)
                      /\ strip line = line)
         (text_lines ad_text).
Proof. exact (text_lines_ends ad_text). Qed.

(** ** The listings of a page *)

Lemma mapM_Forall2 {A B : Type} (f : A -> result B) (l : list A) (bs : list B) :
  mapM f l = Ok bs -> Forall2 (fun a b => f a = Ok b) l bs.
Proof.
  revert bs. induction l as [|a l IH]; intros bs H; simpl in H.
  - inversion H. constructor.
  - destruct (f a) as [b|] eqn:E; simpl in H; try discriminate.
    destruct (mapM f l) as [bs'|] eqn:E'; simpl in H; try discriminate.
    inversion H; subst. constructor; auto.
Qed.

Lemma mapM_raises {A B : Type} (f : A -> result B) (l : list A) (e : exn) :
  mapM f l = Raise e ->
  exists before a after,
    l = before ++ a :: after
    /\ Forall (fun x => exists b, f x = Ok b) before
    /\ f a = Raise e.
Proof.
  induction l as [|a l IH]; intros H; simpl in H; try discriminate.
  destruct (f a) as [b|e'] eqn:E; simpl in H.
  - destruct (mapM f l) as [bs|e''] eqn:E'; simpl in H; try discriminate.
    inversion H; subst e''.
    destruct (IH eq_refl) as [before [x [after [Hl [Hb Hx]]]]].
    exists (a :: before), x, after. subst l. repeat split; auto.
    constructor; eauto.
  - inversion H; subst e'. exists [], a, l. repeat split; auto.
Qed.

(** X2.  When [get_page_bikes] returns, it returns one listing for every
    ad of the page, in the order of the ads: nothing is filtered out,
    merged or reordered. *)
Theorem get_page_bikes_one_per_ad (page : soup) (bikes : list listing) :
  get_page_bikes page = Ok bikes ->
  Forall2 (fun ad b => bike_of_ad ad = Ok b) (ad_texts page) bikes
  /\ length bikes = length (ad_texts page).
Proof.
  rewrite get_page_bikes_mapM. intros H. apply mapM_Forall2 in H.
  split; [exact H|]. symmetry. eapply Forall2_length. exact H.
Qed.

Definition two_ads_page : soup :=
  {| ad_texts := [good_ad; injected_ad]; pagination_text := None |}.

Lemma get_page_bikes_one_per_ad_witness :
  Forall2 (fun ad b => bike_of_ad ad = Ok b)
          (ad_texts two_ads_page)
          [good_listing;
           (lit "Suzuki GS", 60000, 1500,
            {| year := 2088; month := 11; day := 1 |})]
  /\ length [good_listing;
             (lit "Suzuki GS", 60000, 1500,
              {| year := 2088; month := 11; day := 1 |})]
     = length (ad_texts two_ads_page).
Proof.
  apply (get_page_bikes_one_per_ad two_ads_page).
  vm_compute. reflexivity.
Defined.

Lemma bike_of_ad_raises (ad : str) (e : exn) :
  bike_of_ad ad = Raise e ->
  e = IndexError \/ e = ValueError \/ e = NameError \/ e = OverflowError.
Proof.
  unfold bike_of_ad.
  destruct (drop_injected (text_lines ad)) as [text|e'] eqn:Ed; simpl.
  - unfold fields_of_text.
    destruct (positional text) as [[[[description distance] price] dt]|e']
      eqn:Ep; simpl.
    + destruct (normalize_distance distance) eqn:E1; simpl.
      * destruct (normalize_price price) eqn:E2; simpl.
        -- destruct (normalize_date dt) eqn:E3; simpl; try discriminate.
           intros [= <-]. apply normalize_date_raises in E3. tauto.
        -- intros [= <-]. apply normalize_price_raises in E2. tauto.
      * intros [= <-]. apply normalize_distance_raises in E1. tauto.
    + intros [= <-]. apply positional_raises in Ep. tauto.
  - intros [= <-]. apply drop_injected_raises in Ed. tauto.
Qed.

(** An ad whose distance is too large for a float. *)
Definition overflowing_ad : str :=
  sample_ad (lit "Honda CBR") (lit "03/12") (euro :: lit " 3.500")
            (lit "1.5e999 " ++ km).

(** X3.  When [get_page_bikes] raises, the exception is that of the first
    ad that fails, and it is an [IndexError] (too few lines), a
    [ValueError] (a malformed token or date), a [NameError] (a price
    without a dot) or an [OverflowError] (a number out of range), never
    another one. *)
Theorem get_page_bikes_raises (page : soup) (e : exn) :
  get_page_bikes page = Raise e ->
  (exists before ad after,
      ad_texts page = before ++ ad :: after
      /\ Forall (fun a => exists b, bike_of_ad a = Ok b) before
      /\ bike_of_ad ad = Raise e)
  /\ (e = IndexError \/ e = ValueError \/ e = NameError \/ e = OverflowError).
Proof.
  rewrite get_page_bikes_mapM. intros H. apply mapM_raises in H.
  split; [exact H|].
  destruct H as [before [ad [after [_ [_ Ha]]]]].
  now apply bike_of_ad_raises in Ha.
Qed.

Definition overflowing_page : soup :=
  {| ad_texts := [good_ad; overflowing_ad]; pagination_text := None |}.

Lemma get_page_bikes_raises_witness :
  (exists before ad after,
      ad_texts overflowing_page = before ++ ad :: after
      /\ Forall (fun a => exists b, bike_of_ad a = Ok b) before
      /\ bike_of_ad ad = Raise OverflowError)
  /\ (OverflowError = IndexError \/ OverflowError = ValueError
      \/ OverflowError = NameError \/ OverflowError = OverflowError).
Proof.
  apply (get_page_bikes_raises overflowing_page OverflowError).
  vm_compute. reflexivity.
Defined.

(** ** What a listing holds *)

Lemma py_index_In {A : Type} (l : list A) (i : Z) (a : A) :
  py_index l i = Ok a -> In a l.
Proof.
  unfold py_index.
  destruct ((0 <=? (if i <? 0 then i + Z.of_nat (length l) else i))
            && ((if i <? 0 then i + Z.of_nat (length l) else i)
                <? Z.of_nat (length l))); [|discriminate].
  destruct (nth_error l _) as [x|] eqn:E; [|discriminate].
  intros [= <-]. eapply nth_error_In. exact E.
Qed.

Lemma drop_injected_incl (text cleaned : list str) :
  drop_injected text = Ok cleaned -> incl cleaned text.
Proof.
  destruct text as [|l text]; [discriminate|].
  destruct (exists_last (l := l :: text)) as [t [x E]]; [discriminate|].
  rewrite E, drop_injected_last. intros [= <-].
  destruct (contains marker x).
  - apply incl_appl, incl_refl.
  - apply incl_refl.
Qed.

Lemma normalize_date_parts (token : str) (d : date) :
  normalize_date token = Ok d ->
  exists mm yy M Y,
    split 47%N token = [mm; yy]
    /\ int_of_str mm = Ok M /\ int_of_str yy = Ok Y
    /\ d = {| year := resolve_year Y; month := M; day := 1 |}
    /\ 1 <= resolve_year Y <= 9999 /\ 1 <= M <= 12.
Proof.
  unfold normalize_date.
  destruct (split 47%N token) as [|mm [|yy [|z parts]]]; try discriminate.
  destruct (int_of_str mm) as [M|] eqn:Em; simpl; try discriminate.
  destruct (int_of_str yy) as [Y|] eqn:Ey; simpl; try discriminate.
  intros H. apply date_new_valid in H. destruct H as [-> [Hy [Hm _]]].
  exists mm, yy, M, Y. repeat split; auto; lia.
Qed.

(** X4.  A listing that [get_page_bikes] returns for an ad has the first
    remaining line of the ad as its description, which is not empty and
    has no white space at its ends, and a date on the first day of a
    month from 1 to 12 of a year from 1 to 9999; and the ad had at least
    five lines after the cleanup and a dot in its price line. *)
Theorem listing_well_formed (ad : str) (description : str)
        (distance price : Z) (d : date) :
  bike_of_ad ad = Ok (description, distance, price, d) ->
  (In description (text_lines ad)
   /\ description <> [] /\ strip description = description)
  /\ (day d = 1 /\ 1 <= month d <= 12 /\ 1 <= year d <= 9999)
  /\ exists text price_line,
       drop_injected (text_lines ad) = Ok text
       /\ (5 <= length text)%nat
       /\ py_index text (-3) = Ok price_line
       /\ contains (lit ".") price_line = true.
Proof.
  unfold bike_of_ad. intros H.
  destruct (drop_injected (text_lines ad)) as [text|] eqn:Ed;
    simpl in H; try discriminate.
  unfold fields_of_text in H.
  destruct (positional text) as [[[[desc dist_line] price_line] date_line]|]
    eqn:Ep; simpl in H; try discriminate.
  destruct (normalize_distance dist_line) as [dist|] eqn:E1;
    simpl in H; try discriminate.
  destruct (normalize_price price_line) as [pr|] eqn:E2;
    simpl in H; try discriminate.
  destruct (normalize_date date_line) as [dt|] eqn:E3;
    simpl in H; try discriminate.
  inversion H; subst desc dist pr dt. clear H.
  assert (Hlen : (5 <= length text)%nat).
  { destruct (Nat.lt_ge_cases (length text) 5) as [Hl|Hl]; auto.
    rewrite positional_short in Ep by exact Hl. discriminate. }
  unfold positional in Ep.
  destruct (py_index text 0) as [x0|] eqn:I0; simpl in Ep; try discriminate.
  destruct (py_index text (-2)) as [x2|] eqn:I2; simpl in Ep; try discriminate.
  destruct (py_index text (-3)) as [x3|] eqn:I3; simpl in Ep; try discriminate.
  destruct (py_index text (-5)) as [x5|] eqn:I5; simpl in Ep; try discriminate.
  inversion Ep; subst x0 x2 x3 x5. clear Ep.
  assert (Hin : In description (text_lines ad)).
  { apply (drop_injected_incl _ _ Ed). eapply py_index_In. exact I0. }
  pose proof (text_lines_ends ad) as Hlines.
  rewrite Forall_forall in Hlines.
  destruct (Hlines _ Hin) as [Hne [_ [_ Hs]]].
  split; [auto|]. split.
  - apply normalize_date_parts in E3.
    destruct E3 as [mm [yy [M [Y [_ [_ [_ [-> [Hy Hm]]]]]]]]]. simpl. lia.
  - exists text, price_line. repeat split; auto.
    unfold normalize_price in E2.
    destruct (contains (lit ".") price_line); [reflexivity|discriminate].
Qed.

Lemma listing_well_formed_witness :
  (In (lit "Yamaha XT") (text_lines good_ad)
   /\ lit "Yamaha XT" <> [] /\ strip (lit "Yamaha XT") = lit "Yamaha XT")
  /\ (day {| year := 2005; month := 7; day := 1 |} = 1
      /\ 1 <= month {| year := 2005; month := 7; day := 1 |} <= 12
      /\ 1 <= year {| year := 2005; month := 7; day := 1 |} <= 9999)
  /\ exists text price_line,
       drop_injected (text_lines good_ad) = Ok text
       /\ (5 <= length text)%nat
       /\ py_index text (-3) = Ok price_line
       /\ contains (lit ".") price_line = true.
Proof.
  apply (listing_well_formed good_ad (lit "Yamaha XT") 45000 2800).
  vm_compute. reflexivity.
Defined.

(** ** Years *)

(** X5.  The resolution of the year is not one to one: a year from 10 to
    19 and the year ten above it give the same date, so the tokens 07/15
    and 07/25 are both July 2015. *)
Theorem years_ten_apart_collide (mm yy yy' : str) (M Y : Z) :
  int_of_str mm = Ok M ->
  int_of_str yy = Ok Y ->
  int_of_str yy' = Ok (Y + 10) ->
  10 <= Y <= 19 ->
  normalize_date (mm ++ lit "/" ++ yy) = normalize_date (mm ++ lit "/" ++ yy').
Proof.
  intros Hm Hy Hy' HY. unfold normalize_date. simpl app.
  rewrite !split_two by eauto using int_of_str_no_slash.
  rewrite Hm, Hy, Hy'. simpl. f_equal.
  unfold resolve_year.
  destruct (Z.ltb_spec Y 20); destruct (Z.ltb_spec (Y + 10) 20); lia.
Qed.

Lemma years_ten_apart_collide_witness :
  normalize_date (lit "07" ++ lit "/" ++ lit "15")
  = normalize_date (lit "07" ++ lit "/" ++ lit "25").
Proof.
  apply (years_ten_apart_collide (lit "07") (lit "15") (lit "25") 7 15).
  - vm_compute. reflexivity.
  - vm_compute. reflexivity.
  - vm_compute. reflexivity.
  - lia.
Defined.

(** X6.  A year that is not negative never resolves to a year before
    2000, and a year of at most two digits never to one after 2089: no
    date of the twentieth century comes out of a two-digit year. *)
Theorem two_digit_year_range (mm yy : str) (M Y : Z) (d : date) :
  int_of_str mm = Ok M ->
  int_of_str yy = Ok Y ->
  normalize_date (mm ++ lit "/" ++ yy) = Ok d ->
  (0 <= Y -> 2000 <= year d) /\ (Y <= 99 -> year d <= 2089).
Proof.
  intros Hm Hy H. unfold normalize_date in H. simpl app in H.
  rewrite split_two in H by eauto using int_of_str_no_slash.
  rewrite Hm, Hy in H. simpl in H.
  apply date_new_valid in H. destruct H as [-> _]. simpl.
  unfold resolve_year. destruct (Z.ltb_spec Y 20); lia.
Qed.

Lemma two_digit_year_range_witness :
  (0 <= 98 -> 2000 <= year {| year := 2088; month := 11; day := 1 |})
  /\ (98 <= 99 -> year {| year := 2088; month := 11; day := 1 |} <= 2089).
Proof.
  apply (two_digit_year_range (lit "11") (lit "98") 11 98).
  - vm_compute. reflexivity.
  - vm_compute. reflexivity.
  - vm_compute. reflexivity.
Defined.

(** ** The failures of [get_last_page_number] *)

(** X7.  [get_last_page_number] never raises [ValueError]: it fails only
    with [AttributeError], when the page has no pagination control, and
    with [IndexError], when the control has fewer than two lines. *)
Theorem get_last_page_number_failures (page : soup) (e : exn) :
  get_last_page_number page = Raise e ->
  (e = AttributeError /\ pagination_text page = None)
  \/ (e = IndexError
      /\ exists t, pagination_text page = Some t
                   /\ (length (splitlines t) < 2)%nat).
Proof.
  unfold get_last_page_number.
  destruct (pagination_text page) as [t|].
  - destruct (py_index (splitlines t) (-2)) as [line|e'] eqn:El; simpl.
    + destruct (int_of_str line) as [n|e'] eqn:En; simpl; [discriminate|].
      apply int_of_str_raises in En. subst e'. discriminate.
    + pose proof (py_index_raises _ _ _ El) as ->. simpl.
      intros [= <-]. right. split; auto. exists t. split; auto.
      destruct (Nat.lt_ge_cases (length (splitlines t)) 2) as [H|H]; auto.
      destruct (py_index_in_range (splitlines t) (-2)) as [x Hx]; [lia|].
      congruence.
  - simpl. intros [= <-]. now left.
Qed.

Lemma get_last_page_number_failures_witness :
  (IndexError = AttributeError
   /\ pagination_text {| ad_texts := []; pagination_text := Some (lit "1") |}
      = None)
  \/ (IndexError = IndexError
      /\ exists t,
          pagination_text {| ad_texts := []; pagination_text := Some (lit "1") |}
          = Some t
          /\ (length (splitlines t) < 2)%nat).
Proof.
  apply (get_last_page_number_failures
           {| ad_texts := []; pagination_text := Some (lit "1") |} IndexError).
  vm_compute. reflexivity.
Defined.

(** ** A page that cannot be fetched *)

Lemma py_range_cons (lo hi : Z) :
  lo < hi -> py_range lo hi = lo :: py_range (lo + 1) hi.
Proof.
  intros H. unfold py_range.
  replace (Z.to_nat (hi - lo)) with (S (Z.to_nat (hi - (lo + 1)))) by lia.
  simpl. f_equal; [lia|].
  rewrite <- seq_shift, map_map. apply map_ext. intros i. lia.
Qed.

Lemma py_range_empty (lo hi : Z) : hi <= lo -> py_range lo hi = [].
Proof.
  intros H. unfold py_range.
  now replace (Z.to_nat (hi - lo)) with 0%nat by lia.
Qed.

Lemma py_range_split (lo k hi : Z) :
  lo <= k < hi ->
  py_range lo hi = py_range lo k ++ k :: py_range (k + 1) hi.
Proof.
  remember (Z.to_nat (k - lo)) as n eqn:En.
  revert lo En. induction n as [|n IH]; intros lo En H.
  - assert (lo = k) by lia. subst lo.
    rewrite (py_range_empty k k) by lia. simpl.
    apply py_range_cons. lia.
  - rewrite (py_range_cons lo hi) by lia.
    rewrite (py_range_cons lo k) by lia.
    simpl. f_equal. apply IH; lia.
Qed.

(** What [get_soup] leaves when the site raises [e]: a [ValueError] is
    logged and becomes the exit of the process with status 1. *)
Definition fetch_failure_log (url : str) (e : exn) : list event :=
  if exn_eqb e ValueError then [LogInvalidUrl url] else [].

Definition fetch_failure (e : exn) : exn :=
  if exn_eqb e ValueError then SystemExit 1 else e.

Lemma get_soup_failure (site : str -> result soup) (url : str) (e : exn) :
  site url = Raise e ->
  get_soup site url
  = (Open url :: fetch_failure_log url e, Raise (fetch_failure e)).
Proof.
  intros H. unfold get_soup, fetch_failure_log, fetch_failure. rewrite H.
  now destruct (exn_eqb e ValueError).
Qed.

Lemma pages_loop_failure
      (site : str -> result soup) (template : str) (page_url : Z -> str)
      (pages : Z -> soup) (bikes : Z -> list listing)
      (before after : list Z) (k : Z) (e : exn) (data : list listing) :
  Forall (page_served site template page_url pages bikes) before ->
  format_page template k = Ok (page_url k) ->
  site (page_url k) = Raise e ->
  pages_loop site template (before ++ k :: after) data
  = (flat_map (fun p => [LogRetrieving p; Open (page_url p)]) before
     ++ [LogRetrieving k; Open (page_url k)]
     ++ fetch_failure_log (page_url k) e,
     Raise (fetch_failure e)).
Proof.
  intros Hb Hf Hs. revert data.
  induction Hb as [|p before [Hpf [Hps Hpb]] _ IH]; intros data.
  - cbn [app pages_loop flat_map]. rewrite Hf. cbn [io_bind lift tell app].
    rewrite (get_soup_failure _ _ _ Hs). reflexivity.
  - cbn [app pages_loop flat_map]. unfold get_soup at 1.
    rewrite Hpf. cbn. rewrite Hps. cbn. rewrite Hpb. cbn.
    rewrite IH. reflexivity.
Qed.

Lemma opened_failure_log (url : str) (e : exn) :
  opened (fetch_failure_log url e) = [].
Proof. unfold fetch_failure_log. now destruct (exn_eqb e ValueError). Qed.

(** X8.  When the pages before page [k] are fetched and read and the
    fetch of page [k] raises, [get_data] raises too: the listings read so
    far are not returned, no page after [k] is opened and the end of the
    retrieval is not logged.  The exception is the one of the fetch,
    except that a [ValueError] becomes the exit of the process with
    status 1. *)
Theorem get_data_fetch_failure
        (site : str -> result soup) (url : str) (page_url : Z -> str)
        (pages : Z -> soup) (bikes : Z -> list listing)
        (total k : Z) (e : exn) :
  (forall p, p = 1 \/ 2 <= p < k ->
             page_served site (normalize_url url) page_url pages bikes p) ->
  get_last_page_number (pages 1) = Ok total ->
  2 <= k <= total ->
  format_page (normalize_url url) k = Ok (page_url k) ->
  site (page_url k) = Raise e ->
  snd (get_data site url) = Raise (fetch_failure e)
  /\ opened (fst (get_data site url)) = map page_url (1 :: py_range 2 (k + 1))
  /\ ~ In LogFinished (fst (get_data site url)).
Proof.
  intros Hserved Hlast Hk Hf Hs.
  destruct (Hserved 1 (or_introl eq_refl)) as [Hf1 [Hs1 Hb1]].
  assert (Hbefore : Forall (page_served site (normalize_url url)
                                        page_url pages bikes)
                           (py_range 2 k)).
  { apply Forall_forall. intros p Hp. apply Hserved.
    apply py_range_In in Hp. lia. }
  assert (Hrun : get_data site url
                 = ([LogStart; LogRetrieving 1; Open (page_url 1)]
                    ++ flat_map (fun p => [LogRetrieving p; Open (page_url p)])
                                (py_range 2 k)
                    ++ [LogRetrieving k; Open (page_url k)]
                    ++ fetch_failure_log (page_url k) e,
                    Raise (fetch_failure e))).
  { unfold get_data, get_soup. cbn zeta. rewrite Hf1. cbn.
    rewrite Hs1. cbn. rewrite Hb1. cbn. rewrite Hlast. cbn.
    rewrite (py_range_split 2 k (total + 1)) by lia.
    rewrite (pages_loop_failure site _ page_url pages bikes _ _ _ e _
                                Hbefore Hf Hs).
    reflexivity. }
  rewrite Hrun. cbn [fst snd]. split; [reflexivity|]. split.
  - rewrite !opened_app, opened_pages, opened_failure_log.
    rewrite (py_range_split 2 k (k + 1)) by lia.
    rewrite (py_range_empty (k + 1) (k + 1)) by lia.
    cbn. rewrite map_app. reflexivity.
  - intros Hin. repeat (apply in_app_or in Hin; destruct Hin as [Hin|Hin]).
    + simpl in Hin. intuition discriminate.
    + apply in_flat_map in Hin. destruct Hin as [p [_ Hp]].
      simpl in Hp. intuition discriminate.
    + simpl in Hin. intuition discriminate.
    + unfold fetch_failure_log in Hin.
      destruct (exn_eqb e ValueError); simpl in Hin; intuition discriminate.
Qed.

(** A site whose second page cannot be fetched. *)
Definition broken_site (url : str) : result soup :=
  if str_eqb url (fixture_page_url 1) then Ok (fixture_page 1)
  else Raise URLError.

Lemma get_data_fetch_failure_witness :
  snd (get_data broken_site fixture_url) = Raise URLError
  /\ opened (fst (get_data broken_site fixture_url))
     = map fixture_page_url (1 :: py_range 2 (2 + 1))
  /\ ~ In LogFinished (fst (get_data broken_site fixture_url)).
Proof.
  apply (get_data_fetch_failure
           broken_site fixture_url fixture_page_url fixture_page
           fixture_bikes 2 2 URLError).
  - intros p [Hp|Hp]; [subst p|lia].
    repeat split; vm_compute; reflexivity.
  - vm_compute. reflexivity.
  - lia.
  - vm_compute. reflexivity.
  - vm_compute. reflexivity.
Defined.

(** X9.  When the first url cannot be opened because it is not a valid
    url ([ValueError]), [get_data] logs one error naming the url and the
    process exits with status 1; no page is read and nothing else is
    opened. *)
Theorem get_data_invalid_url
        (site : str -> result soup) (url first_page_url : str) :
  format_page (normalize_url url) 1 = Ok first_page_url ->
  site first_page_url = Raise ValueError ->
  get_data site url
  = ([LogStart; LogRetrieving 1; Open first_page_url;
      LogInvalidUrl first_page_url],
     Raise (SystemExit 1)).
Proof.
  intros Hf Hs. unfold get_data. cbn zeta. rewrite Hf.
  cbn [io_bind lift tell app].
  rewrite (get_soup_failure _ _ _ Hs). reflexivity.
Qed.

Lemma get_data_invalid_url_witness :
  get_data (fun _ => Raise ValueError) (lit "car.gr")
  = ([LogStart; LogRetrieving 1; Open (lit "car.gr&pg=1");
      LogInvalidUrl (lit "car.gr&pg=1")],
     Raise (SystemExit 1)).
Proof.
  apply (get_data_invalid_url (fun _ => Raise ValueError) (lit "car.gr")).
  - vm_compute. reflexivity.
  - reflexivity.
Defined.

(** ** More on [normalize_url] *)

Lemma greedy_fails (cls : char -> bool)
      (k : str -> option (list str * str)) (s : str) :
  (forall p u, s = p ++ u -> k u = None) ->
  forall taken, greedy cls k s taken = None.
Proof.
  induction s as [|c s IH]; intros H taken.
  - cbn [greedy]. unfold continue_with. now rewrite (H [] []).
  - cbn [greedy].
    rewrite IH by (intros p u E; apply (H (c :: p) u); now rewrite E).
    unfold continue_with. rewrite (H [] (c :: s)) by reflexivity.
    now destruct (cls c).
Qed.

Lemma contains_false_suffix (w s : str) :
  contains w s = false ->
  forall p u, s = p ++ u -> strip_prefix w u = None.
Proof.
  intros H p. revert s H. induction p as [|c p IH]; intros s H u E.
  - simpl in E. subst u.
    destruct s; simpl in H; destruct (strip_prefix w _); auto; discriminate.
  - subst s. apply (IH (p ++ u)); auto.
    simpl app in H. cbn [contains] in H.
    destruct (strip_prefix w (c :: p ++ u)); auto; discriminate.
Qed.

Lemma pg_tail_needs_prefix (u : str) :
  strip_prefix (lit "&pg=") u = None -> rmatch pg_tail u = None.
Proof. intros H. unfold pg_tail. cbn [rmatch]. now rewrite H. Qed.

Lemma rmatch_pg_pattern_fails (s : str) :
  (forall p u, s = p ++ u -> strip_prefix (lit "&pg=") u = None) ->
  rmatch pg_pattern s = None.
Proof.
  intros H.
  change (rmatch pg_pattern s) with (greedy dot (rmatch pg_tail) s []).
  apply greedy_fails. intros p u E. apply pg_tail_needs_prefix. eauto.
Qed.

Lemma sub_scan_no_match (fuel : nat) (s : str) :
  (forall p u, s = p ++ u -> rmatch pg_pattern u = None) ->
  sub_scan pg_pattern pg_replacement fuel s = s.
Proof.
  revert s. induction fuel as [|f IH]; intros s H; cbn [sub_scan];
    rewrite (H [] s eq_refl); auto.
  destruct s as [|c s]; auto. f_equal.
  apply IH. intros p u E. apply (H (c :: p) u). now rewrite E.
Qed.

Lemma re_sub_without_parameter (url : str) :
  contains (lit "&pg=") url = false ->
  re_sub pg_pattern pg_replacement url = url.
Proof.
  intros H. apply sub_scan_no_match. intros p u E.
  apply rmatch_pg_pattern_fails. intros p' u' E'.
  apply (contains_false_suffix _ _ H (p ++ p') u').
  now rewrite E, E', app_assoc.
Qed.

(** X10.  A url without a page parameter is kept as it is: the template
    is the url followed by the placeholder, and, when the url has no
    brace, the url opened for page [n] is the url followed by [&pg=n]. *)
Theorem normalize_url_appends_parameter (url : str) (page : Z) :
  contains (lit "&pg=") url = false ->
  normalize_url url = url ++ lit "&pg={page}"
  /\ (Forall (fun c => is_brace c = false) url ->
      format_page (normalize_url url) page
      = Ok (url ++ lit "&pg=" ++ str_of_int page)).
Proof.
  intros H.
  assert (E : normalize_url url = url ++ lit "&pg={page}").
  { unfold normalize_url. now rewrite re_sub_without_parameter. }
  split; [exact E|]. intros Hb. rewrite E.
  now apply format_page_template.
Qed.

Lemma normalize_url_appends_parameter_witness :
  normalize_url fixture_url = fixture_url ++ lit "&pg={page}"
  /\ (Forall (fun c => is_brace c = false) fixture_url ->
      format_page (normalize_url fixture_url) 12
      = Ok (fixture_url ++ lit "&pg=" ++ str_of_int 12)).
Proof.
  apply (normalize_url_appends_parameter fixture_url 12).
  vm_compute. reflexivity.
Defined.

(** *** The last page parameter is the one that goes *)

Definition no_leading_digit (s : str) : Prop :=
  match s with
  | c :: _ => is_digit c = false
  | [] => True
  end.

Lemma greedy_stops (cls : char -> bool)
      (k : str -> option (list str * str))
      (segs : list str) (rest ds b : str) :
  Forall (fun c => cls c = true) ds ->
  match b with c :: _ => cls c = false | [] => True end ->
  k b = Some (segs, rest) ->
  forall taken, greedy cls k (ds ++ b) taken = Some ((taken ++ ds) :: segs, rest).
Proof.
  intros Hds Hb Hk. induction Hds as [|c ds Hc _ IH]; intros taken.
  - cbn [app]. rewrite app_nil_r.
    destruct b as [|c b]; cbn [greedy]; [|rewrite Hb];
      unfold continue_with; now rewrite Hk.
  - cbn [app greedy]. rewrite Hc, IH. now rewrite <- app_assoc.
Qed.

Lemma pg_tail_on_parameter (d : char) (ds b : str) :
  Forall (fun c => is_digit c = true) (d :: ds) ->
  no_leading_digit b ->
  Forall (fun c => dot c = true) b ->
  rmatch pg_tail (lit "&pg=" ++ (d :: ds) ++ b)
  = Some ([lit "&pg="; d :: ds; b], []).
Proof.
  intros Hd Hb Hdot. inversion Hd as [|? ? Hd1 Hds]; subst.
  unfold pg_tail. cbn [rmatch]. rewrite strip_prefix_self.
  cbn [app]. unfold digit09 at 1. rewrite Hd1.
  rewrite (greedy_stops digit09 _ [b] [] ds b); auto.
  cbn [rmatch].
  rewrite (greedy_takes_all dot _ [] [] eq_refl b [] Hdot). reflexivity.
Qed.

Lemma pg_tail_fails_inside (d : char) (ds b : str) :
  Forall (fun c => is_digit c = true) (d :: ds) ->
  contains (lit "&pg=") b = false ->
  forall p u, lit "pg=" ++ (d :: ds) ++ b = p ++ u -> rmatch pg_tail u = None.
Proof.
  intros Hd Hb p u E.
  assert (Hl : Forall (fun c => c <> 38%N) (lit "pg=" ++ d :: ds)).
  { apply Forall_app. split.
    - repeat constructor; discriminate.
    - eapply Forall_impl; [|exact Hd]. intros c Hc ->. discriminate. }
  change (lit "pg=" ++ (d :: ds) ++ b)
    with ((lit "pg=" ++ d :: ds) ++ b) in E.
  symmetry in E. apply app_eq_app in E.
  destruct E as [l [[E1 E2]|[E1 E2]]].
  - apply pg_tail_needs_prefix.
    apply (contains_false_suffix _ _ Hb l u). exact E2.
  - destruct l as [|c l].
    + simpl in E2. subst u. apply pg_tail_needs_prefix.
      apply (contains_false_suffix _ _ Hb [] b). reflexivity.
    + subst u. apply pg_tail_needs_amp. simpl. intros [= ->].
      rewrite E1 in Hl. apply Forall_app in Hl. destruct Hl as [_ Hl].
      inversion Hl; subst. congruence.
Qed.

Lemma re_sub_last_parameter (a ds b : str) (d : char) :
  Forall (fun c => dot c = true) a ->
  Forall (fun c => is_digit c = true) (d :: ds) ->
  no_leading_digit b ->
  Forall (fun c => dot c = true) b ->
  contains (lit "&pg=") b = false ->
  re_sub pg_pattern pg_replacement (a ++ lit "&pg=" ++ (d :: ds) ++ b)
  = a ++ b.
Proof.
  intros Ha Hd Hb Hdot Hc.
  pose proof (pg_tail_on_parameter d ds b Hd Hb Hdot) as Ht.
  assert (Hm : rmatch pg_pattern (a ++ lit "&pg=" ++ (d :: ds) ++ b)
               = Some ([a; lit "&pg="; d :: ds; b], [])).
  { change (rmatch pg_pattern (a ++ lit "&pg=" ++ (d :: ds) ++ b))
      with (greedy dot (rmatch pg_tail)
                   (a ++ lit "&pg=" ++ (d :: ds) ++ b) []).
    rewrite (greedy_gives_back _ _ Ht); auto.
    - unfold continue_with. now rewrite Ht.
    - intros taken.
      change (lit "&pg=" ++ (d :: ds) ++ b)
        with (38%N :: lit "pg=" ++ (d :: ds) ++ b).
      cbn [greedy]. change (dot 38%N) with true. cbv iota.
      rewrite greedy_fails; [reflexivity|].
      now apply pg_tail_fails_inside. }
  unfold re_sub.
  set (s := a ++ lit "&pg=" ++ (d :: ds) ++ b) in *.
  destruct (length s) as [|n] eqn:El; cbn [sub_scan]; rewrite Hm.
  - unfold pg_replacement. cbn [nth]. now rewrite app_nil_r.
  - rewrite El. cbn [length Nat.ltb Nat.leb].
    rewrite sub_scan_nil. unfold pg_replacement. cbn [nth].
    now rewrite app_nil_r.
Qed.

(** X11.  On a url of one line [normalize_url] removes the last page
    parameter and nothing else: what stands before it, an earlier page
    parameter included, and what stands after it are kept in place, and
    the placeholder goes to the end. *)
Theorem normalize_url_strips_last_parameter (a ds b : str) :
  Forall (fun c => dot c = true) a ->
  ds <> [] ->
  Forall (fun c => is_digit c = true) ds ->
  no_leading_digit b ->
  Forall (fun c => dot c = true) b ->
  contains (lit "&pg=") b = false ->
  normalize_url (a ++ lit "&pg=" ++ ds ++ b) = a ++ b ++ lit "&pg={page}".
Proof.
  intros Ha Hne Hd Hb Hdot Hc.
  destruct ds as [|d ds]; [congruence|].
  unfold normalize_url.
  rewrite (re_sub_last_parameter a ds b d); auto.
  now rewrite app_assoc.
Qed.

Lemma normalize_url_strips_last_parameter_witness :
  normalize_url (lit "http://www.car.gr/bikes?fs=1&pg=2" ++ lit "&pg="
                 ++ lit "31" ++ lit "&condition=used")
  = lit "http://www.car.gr/bikes?fs=1&pg=2" ++ lit "&condition=used"
    ++ lit "&pg={page}".
Proof.
  apply (normalize_url_strips_last_parameter
           (lit "http://www.car.gr/bikes?fs=1&pg=2") (lit "31")
           (lit "&condition=used")).
  - repeat constructor.
  - discriminate.
  - repeat constructor.
  - reflexivity.
  - repeat constructor.
  - vm_compute. reflexivity.
Defined.

(** ** More on the crawl *)

Lemma get_data_served
      (site : str -> result soup) (url : str) (page_url : Z -> str)
      (pages : Z -> soup) (bikes : Z -> list listing) (total : Z) :
  (forall p, p = 1 \/ 2 <= p <= total ->
             page_served site (normalize_url url) page_url pages bikes p) ->
  get_last_page_number (pages 1) = Ok total ->
  get_data site url
  = (LogStart
     :: flat_map (fun p => [LogRetrieving p; Open (page_url p)])
                 (1 :: py_range 2 (total + 1))
     ++ [LogFinished],
     Ok (concat (map bikes (1 :: py_range 2 (total + 1))))).
Proof.
  intros Hserved Hlast.
  assert (Hrest : Forall (page_served site (normalize_url url)
                                      page_url pages bikes)
                         (py_range 2 (total + 1))).
  { apply Forall_forall. intros p Hp. apply Hserved.
    apply py_range_In in Hp. lia. }
  destruct (Hserved 1 (or_introl eq_refl)) as [Hf [Hs Hb]].
  unfold get_data, get_soup. cbn zeta. rewrite Hf. cbn.
  rewrite Hs. cbn. rewrite Hb. cbn. rewrite Hlast. cbn.
  rewrite (pages_loop_served site _ page_url pages bikes _ _ Hrest).
  reflexivity.
Qed.

Lemma length_concat_map {A B : Type} (f : A -> list B) (l : list A) :
  length (concat (map f l)) = list_sum (map (fun a => length (f a)) l).
Proof.
  induction l as [|a l IH]; simpl; auto.
  now rewrite length_app, IH.
Qed.

(** X12.  A crawl returns as many listings as the pages it read have
    ads: an ad that the site shows on two pages is in the result twice,
    nothing is removed as a duplicate. *)
Theorem get_data_counts_every_ad
        (site : str -> result soup) (url : str) (page_url : Z -> str)
        (pages : Z -> soup) (bikes : Z -> list listing) (total : Z) :
  (forall p, p = 1 \/ 2 <= p <= total ->
             page_served site (normalize_url url) page_url pages bikes p) ->
  get_last_page_number (pages 1) = Ok total ->
  exists data,
    snd (get_data site url) = Ok data
    /\ length data
       = list_sum (map (fun p => length (ad_texts (pages p)))
                       (1 :: py_range 2 (total + 1))).
Proof.
  intros Hserved Hlast.
  rewrite (get_data_served site url page_url pages bikes total Hserved Hlast).
  eexists. split; [reflexivity|].
  rewrite length_concat_map. f_equal. apply map_ext_in.
  intros p Hp.
  assert (Hp' : p = 1 \/ 2 <= p <= total).
  { destruct Hp as [<-|Hp]; auto. apply py_range_In in Hp. lia. }
  destruct (Hserved p Hp') as [_ [_ Hb]].
  rewrite get_page_bikes_mapM in Hb. apply mapM_Forall2 in Hb.
  symmetry. eapply Forall2_length. exact Hb.
Qed.

(** A site that shows the same ad on its two pages. *)
Definition repeating_page (p : Z) : soup :=
  if p =? 1 then
    {| ad_texts := [good_ad];
       pagination_text := Some (lit "1" ++ newline ++ lit "2" ++ newline
                                ++ lit ">" ++ newline) |}
  else {| ad_texts := [good_ad]; pagination_text := None |}.

Definition repeating_site (url : str) : result soup :=
  if str_eqb url (fixture_page_url 1) then Ok (repeating_page 1)
  else if str_eqb url (fixture_page_url 2) then Ok (repeating_page 2)
  else Raise URLError.

Lemma get_data_counts_every_ad_witness :
  exists data,
    snd (get_data repeating_site fixture_url) = Ok data
    /\ length data
       = list_sum (map (fun p => length (ad_texts (repeating_page p)))
                       (1 :: py_range 2 (2 + 1))).
Proof.
  apply (get_data_counts_every_ad
           repeating_site fixture_url fixture_page_url repeating_page
           (fun _ => [good_listing]) 2).
  - intros p [Hp|Hp]; [|assert (p = 2) by lia]; subst p;
      repeat split; vm_compute; reflexivity.
  - vm_compute. reflexivity.
Defined.

(** X13.  The page count is not checked: when the count read from the
    first page is below 2, be it 1, 0 or negative, only the first page
    is opened and its listings are the result. *)
Theorem get_data_single_page
        (site : str -> result soup) (url first_page_url : str)
        (first_page : soup) (bikes : list listing) (total : Z) :
  format_page (normalize_url url) 1 = Ok first_page_url ->
  site first_page_url = Ok first_page ->
  get_page_bikes first_page = Ok bikes ->
  get_last_page_number first_page = Ok total ->
  total < 2 ->
  get_data site url
  = ([LogStart; LogRetrieving 1; Open first_page_url; LogFinished], Ok bikes).
Proof.
  intros Hf Hs Hb Hlast Ht.
  rewrite (get_data_served site url (fun _ => first_page_url)
                           (fun _ => first_page) (fun _ => bikes) total).
  - rewrite py_range_empty by lia. cbn. now rewrite app_nil_r.
  - intros p [->|Hp]; [|lia]. repeat split; auto.
  - exact Hlast.
Qed.

Definition page_counting_zero : soup :=
  {| ad_texts := [good_ad];
     pagination_text := Some (lit "<" ++ newline ++ lit "0" ++ newline
                              ++ lit ">" ++ newline) |}.

Lemma get_data_single_page_witness :
  get_data (fun _ => Ok page_counting_zero) fixture_url
  = ([LogStart; LogRetrieving 1; Open (fixture_page_url 1); LogFinished],
     Ok [good_listing]).
Proof.
  apply (get_data_single_page (fun _ => Ok page_counting_zero) fixture_url
                              (fixture_page_url 1) page_counting_zero
                              [good_listing] 0).
  - vm_compute. reflexivity.
  - reflexivity.
  - vm_compute. reflexivity.
  - vm_compute. reflexivity.
  - lia.
Defined.

(** ** The extraction of a page, piece by piece *)

Lemma mapM_app {A B : Type} (f : A -> result B) (l1 l2 : list A) :
  mapM f (l1 ++ l2)
  = (b1 <- mapM f l1 ;; b2 <- mapM f l2 ;; Ok (b1 ++ b2)).
Proof.
  induction l1 as [|a l1 IH]; simpl.
  - now destruct (mapM f l2).
  - destruct (f a) as [b|]; simpl; auto. rewrite IH.
    destruct (mapM f l1) as [b1|]; simpl; auto.
    now destruct (mapM f l2).
Qed.

(** X14.  The ads of a page are read one after the other and
    independently: the listings of a page are those of its first ads
    followed by those of its other ads, and a failure among the first
    ads is the failure of the page. *)
Theorem get_page_bikes_app (ads1 ads2 : list str) (pg1 pg2 pg : option str) :
  get_page_bikes {| ad_texts := ads1 ++ ads2; pagination_text := pg |}
  = (b1 <- get_page_bikes {| ad_texts := ads1; pagination_text := pg1 |} ;;
     b2 <- get_page_bikes {| ad_texts := ads2; pagination_text := pg2 |} ;;
     Ok (b1 ++ b2)).
Proof. rewrite !get_page_bikes_mapM. apply mapM_app. Qed.

(** ** The affixes *)

Lemma contains_dot (s : str) :
  contains (lit ".") s = existsb (N.eqb 46) s.
Proof.
  induction s as [|c s IH]; [reflexivity|].
  change (lit ".") with [46%N] in *.
  cbn [contains strip_prefix existsb]. unfold char_eqb.
  destruct (46 =? c)%N; auto.
Qed.

Lemma contains_dot_app (a b : str) :
  contains (lit ".") (a ++ b)
  = contains (lit ".") a || contains (lit ".") b.
Proof. rewrite !contains_dot. apply existsb_app. Qed.

Lemma drop_last_app (t u : str) : drop_last (length u) (t ++ u) = t.
Proof.
  unfold drop_last. rewrite length_app.
  replace (length t + length u - length u)%nat with (length t) by lia.
  rewrite firstn_app, Nat.sub_diag, firstn_all. simpl. apply app_nil_r.
Qed.

Lemma drop_first_app (p t : str) : drop_first (length p) (p ++ t) = t.
Proof.
  unfold drop_first. rewrite skipn_app, Nat.sub_diag, skipn_all. reflexivity.
Qed.

(** X15.  The unit and the currency are not checked: the last three
    characters of a distance and the first two of a price are dropped
    whatever they are, and two tokens that differ only there, with a dot
    in neither affix or in both, normalize alike. *)
Theorem affixes_are_not_checked (t u u' p p' : str) :
  length u = 3%nat -> length u' = 3%nat ->
  length p = 2%nat -> length p' = 2%nat ->
  contains (lit ".") u = contains (lit ".") u' ->
  contains (lit ".") p = contains (lit ".") p' ->
  normalize_distance (t ++ u) = normalize_distance (t ++ u')
  /\ normalize_price (p ++ t) = normalize_price (p' ++ t).
Proof.
  intros Hu Hu' Hp Hp' Hdu Hdp. split.
  - unfold normalize_distance. rewrite !contains_dot_app, Hdu.
    replace (drop_last 3 (t ++ u)) with t
      by (rewrite <- Hu; now rewrite drop_last_app).
    replace (drop_last 3 (t ++ u')) with t
      by (rewrite <- Hu'; now rewrite drop_last_app).
    reflexivity.
  - unfold normalize_price. rewrite !contains_dot_app, Hdp.
    replace (drop_first 2 (p ++ t)) with t
      by (rewrite <- Hp; now rewrite drop_first_app).
    replace (drop_first 2 (p' ++ t)) with t
      by (rewrite <- Hp'; now rewrite drop_first_app).
    reflexivity.
Qed.

Lemma affixes_are_not_checked_witness :
  normalize_distance (lit "12000" ++ lit " km")
  = normalize_distance (lit "12000" ++ lit "abc")
  /\ normalize_price (lit "E " ++ lit "12000")
     = normalize_price (lit "$$" ++ lit "12000").
Proof.
  apply (affixes_are_not_checked
           (lit "12000") (lit " km") (lit "abc") (lit "E ") (lit "$$"));
    reflexivity.
Defined.

(** ** Tokens of three decimals *)

(** *** Reading digits, a dot and digits *)

Lemma is_digit_bounds (c : char) :
  is_digit c = true -> (48 <= c <= 57)%N.
Proof.
  unfold is_digit. intros H. apply andb_prop in H. destruct H as [H1 H2].
  apply N.leb_le in H1, H2. lia.
Qed.

Lemma to_ascii_low (c : char) : (c < 127)%N -> to_ascii c = c.
Proof.
  intros H. unfold to_ascii. destruct (N.ltb_spec c 127); auto. lia.
Qed.

Lemma map_to_ascii_low (s : str) :
  Forall (fun c => (c < 127)%N) s -> map to_ascii s = s.
Proof.
  intros H. induction H as [|c s Hc _ IH]; simpl; auto.
  now rewrite to_ascii_low, IH.
Qed.

Definition no_leading_c_space (s : str) : Prop :=
  match s with
  | c :: _ => c_isspace c = false
  | [] => True
  end.

Lemma c_lstrip_fixed (s : str) : no_leading_c_space s -> c_lstrip s = s.
Proof. destruct s as [|c s]; simpl; auto. now intros ->. Qed.

Lemma c_strip_fixed (s : str) :
  no_leading_c_space s -> no_leading_c_space (rev s) -> c_strip s = s.
Proof.
  intros H1 H2. unfold c_strip.
  rewrite (c_lstrip_fixed s H1), (c_lstrip_fixed _ H2).
  apply rev_involutive.
Qed.

Lemma c_strip_trailing_space (s : str) :
  s <> [] ->
  no_leading_c_space s -> no_leading_c_space (rev s) ->
  c_strip (s ++ [32%N]) = s.
Proof.
  intros Hne H1 H2. unfold c_strip.
  rewrite (c_lstrip_fixed (s ++ [32%N])).
  - rewrite rev_app_distr. cbn [rev app c_lstrip].
    change (c_isspace 32%N) with true. cbv iota.
    rewrite (c_lstrip_fixed _ H2). apply rev_involutive.
  - destruct s; [congruence|exact H1].
Qed.

Lemma remove_underscores_without (s : str) (b : bool) :
  Forall (fun c => (c =? 95)%N = false) s ->
  remove_underscores b s = Some s.
Proof.
  intros H. revert b. induction H as [|c s Hc _ IH]; intros b; simpl; auto.
  now rewrite Hc, IH.
Qed.

Lemma span_digits_app (ds r : str) :
  Forall (fun c => is_digit c = true) ds ->
  no_leading_digit r ->
  span_digits (ds ++ r) = (ds, r).
Proof.
  intros H Hr. induction H as [|c ds Hc _ IH]; simpl.
  - destruct r as [|c r]; simpl in *; auto. now rewrite Hr.
  - now rewrite Hc, IH.
Qed.

(** The shape of a token of the site: digits, a dot, digits. *)
Record decimal_token (ip fp : str) : Prop := {
  ip_not_empty : ip <> [];
  fp_not_empty : fp <> [];
  ip_digits : Forall (fun c => is_digit c = true) ip;
  fp_digits : Forall (fun c => is_digit c = true) fp
}.

Lemma decimal_token_plain (ip fp : str) :
  decimal_token ip fp ->
  let v := ip ++ 46%N :: fp in
  map to_ascii v = v
  /\ c_strip v = v /\ c_strip (v ++ [32%N]) = v
  /\ remove_underscores false v = Some v.
Proof.
  intros [Hi Hf Hdi Hdf] v.
  assert (Hv : Forall (fun c => is_digit c = true \/ c = 46%N) v).
  { unfold v. apply Forall_app. split.
    - eapply Forall_impl; [|exact Hdi]. auto.
    - constructor; auto. eapply Forall_impl; [|exact Hdf]. auto. }
  assert (H1 : no_leading_c_space v).
  { unfold v. destruct ip as [|c ip]; [congruence|]. simpl.
    inversion Hdi as [|? ? Hc _]; subst. apply is_digit_bounds in Hc.
    unfold c_isspace.
    destruct (N.leb_spec 9 c), (N.leb_spec c 13), (N.eqb_spec c 32);
      simpl; auto; lia. }
  assert (H2 : no_leading_c_space (rev v)).
  { unfold v. rewrite rev_app_distr. simpl rev. rewrite <- !app_assoc.
    destruct (rev fp) as [|c r] eqn:Er.
    - apply (f_equal (@rev _)) in Er. rewrite rev_involutive in Er.
      simpl in Er. congruence.
    - simpl.
      assert (Hc : is_digit c = true).
      { apply Forall_rev in Hdf. rewrite Er in Hdf. now inversion Hdf. }
      apply is_digit_bounds in Hc. unfold c_isspace.
      destruct (N.leb_spec 9 c), (N.leb_spec c 13), (N.eqb_spec c 32);
        simpl; auto; lia. }
  assert (Hne : v <> []) by (unfold v; destruct ip; discriminate).
  repeat split.
  - apply map_to_ascii_low. eapply Forall_impl; [|exact Hv].
    intros c [Hc| ->]; [apply is_digit_bounds in Hc|]; lia.
  - now apply c_strip_fixed.
  - now apply c_strip_trailing_space.
  - apply remove_underscores_without. eapply Forall_impl; [|exact Hv].
    intros c [Hc| ->]; [|reflexivity].
    apply is_digit_bounds in Hc. apply N.eqb_neq. lia.
Qed.

(** The float that a token of digits, a dot and digits is read as. *)
Definition decimal_value_of (ip fp : str) : spec_float :=
  match digits_value (ip ++ fp) with
  | Zpos n => decimal_to_float false n (0 - Z.of_nat (length fp))
  | _ => S754_zero false
  end.

Lemma float_of_plain_decimal (ip fp : str) :
  decimal_token ip fp ->
  forall u, remove_underscores false (c_strip (map to_ascii u))
            = Some (ip ++ 46%N :: fp) ->
  float_of_str u = Ok (decimal_value_of ip fp).
Proof.
  intros [Hi Hf Hdi Hdf] u Hu. unfold float_of_str. rewrite Hu.
  destruct ip as [|d ip]; [congruence|].
  inversion Hdi as [|? ? Hd Hdi']; subst.
  pose proof (is_digit_bounds d Hd) as Hb.
  assert (Hs : read_sign ((d :: ip) ++ 46%N :: fp)
               = (false, (d :: ip) ++ 46%N :: fp)).
  { simpl. destruct (N.eqb_spec d 45); [lia|].
    destruct (N.eqb_spec d 43); [lia|]. reflexivity. }
  rewrite Hs.
  assert (Hl : lower d = d).
  { unfold lower. destruct (N.leb_spec 65 d); simpl; auto. lia. }
  assert (Hw : forall w c, (c =? d)%N = false ->
                 str_eqb (map lower ((d :: ip) ++ 46%N :: fp)) (c :: w)
                 = false).
  { intros w c Hc. simpl. rewrite Hl. unfold char_eqb.
    rewrite N.eqb_sym, Hc. reflexivity. }
  change (lit "inf") with (105%N :: lit "nf").
  change (lit "infinity") with (105%N :: lit "nfinity").
  change (lit "nan") with (110%N :: lit "an").
  rewrite !Hw by (apply N.eqb_neq; lia). cbn [orb].
  rewrite (span_digits_app (d :: ip) (46%N :: fp) Hdi) by reflexivity.
  change (46 =? 46)%N with true. cbv iota.
  rewrite <- (app_nil_r fp) at 1.
  rewrite (span_digits_app fp [] Hdf) by exact I.
  cbn [read_exponent]. unfold decimal_value_of.
  destruct ((d :: ip) ++ fp) eqn:E; [discriminate|]. rewrite <- E.
  destruct (digits_value ((d :: ip) ++ fp)); reflexivity.
Qed.

Lemma float_of_decimal_token (ip fp : str) :
  decimal_token ip fp ->
  float_of_str (ip ++ 46%N :: fp) = Ok (decimal_value_of ip fp)
  /\ float_of_str ((ip ++ 46%N :: fp) ++ [32%N])
     = Ok (decimal_value_of ip fp).
Proof.
  intros H. destruct (decimal_token_plain ip fp H) as [H1 [H2 [H3 H4]]].
  split; apply float_of_plain_decimal; auto.
  - now rewrite H1, H2.
  - rewrite map_app, H1. cbn [map].
    transitivity (remove_underscores false (ip ++ 46%N :: fp));
      [f_equal; exact H3 | exact H4].
Qed.

(** *** The truncated product, for the values below ten thousand *)

(** Lines 147 and 148 on a token of three decimals whose digits, read
    without the dot, are [n]. *)
Definition truncated_thousandths (n : Z) : result Z :=
  let x := match n with
           | Zpos p => decimal_to_float false p (-3)
           | _ => S754_zero false
           end in
  y <- float_mul_int x 1000 ;; int_of_float y.

Definition within_one (n : Z) : bool :=
  match truncated_thousandths n with
  | Ok v => (v =? n) || (v =? n - 1)
  | Raise _ => false
  end.

Fixpoint within_one_from (count : nat) (n : Z) : bool :=
  match count with
  | O => true
  | S c => within_one n && within_one_from c (n + 1)
  end.

Lemma within_one_from_spec (count : nat) (n m : Z) :
  within_one_from count n = true ->
  n <= m < n + Z.of_nat count ->
  within_one m = true.
Proof.
  revert n. induction count as [|c IH]; intros n H Hm; [lia|].
  cbn [within_one_from] in H. apply andb_prop in H. destruct H as [H1 H2].
  destruct (Z.eq_dec m n) as [->|Hne]; auto.
  apply (IH (n + 1)); auto. lia.
Qed.

Lemma within_one_below_10000 :
  within_one_from (Z.to_nat 10000) 0 = true.
Proof. vm_compute. reflexivity. Qed.

Lemma digits_value_nonneg (ds : str) : 0 <= digits_value ds.
Proof.
  unfold digits_value.
  assert (H : forall acc, 0 <= acc ->
                0 <= fold_left (fun a c => 10 * a + Z.of_N (c - 48)) ds acc).
  { induction ds as [|c ds IH]; intros acc Hacc; cbn [fold_left]; auto.
    apply IH. pose proof (N2Z.is_nonneg (c - 48)). lia. }
  apply H. lia.
Qed.

Lemma truncated_thousandths_within_one (n : Z) :
  0 <= n < 10000 ->
  truncated_thousandths n = Ok n \/ truncated_thousandths n = Ok (n - 1).
Proof.
  intros H.
  pose proof (within_one_from_spec _ 0 n within_one_below_10000) as Hw.
  unfold within_one in Hw.
  destruct (truncated_thousandths n) as [v|e].
  - assert (Hv : (v =? n) || (v =? n - 1) = true)
      by (apply Hw; change (Z.of_nat (Z.to_nat 10000)) with 10000; lia).
    apply orb_prop in Hv. destruct Hv as [Hv|Hv]; apply Z.eqb_eq in Hv;
      subst; auto.
  - assert (false = true)
      by (apply Hw; change (Z.of_nat (Z.to_nat 10000)) with 10000; lia).
    discriminate.
Qed.

(** X16.  For a token of digits, a dot and three digits whose digits,
    read without the dot, are a number [n] below 10000 (from 0.000 to
    9.999), the distance and the price are [n] or [n - 1], never farther
    from the number the token denotes. *)
Theorem three_decimals_within_one (ip fp unit prefix : str) :
  decimal_token ip fp ->
  length fp = 3%nat ->
  length unit = 3%nat ->
  length prefix = 2%nat ->
  digits_value (ip ++ fp) < 10000 ->
  let n := digits_value (ip ++ fp) in
  (normalize_distance (((ip ++ lit "." ++ fp) ++ lit " ") ++ unit) = Ok n
   \/ normalize_distance (((ip ++ lit "." ++ fp) ++ lit " ") ++ unit)
      = Ok (n - 1))
  /\ (normalize_price (prefix ++ ip ++ lit "." ++ fp) = Ok n
      \/ normalize_price (prefix ++ ip ++ lit "." ++ fp) = Ok (n - 1)).
Proof.
  intros Htok Hfp Hunit Hprefix Hn n.
  destruct (float_of_decimal_token ip fp Htok) as [Hf1 Hf2].
  assert (Hval : (x <- Ok (decimal_value_of ip fp) ;;
                  y <- float_mul_int x 1000 ;; int_of_float y)
                 = truncated_thousandths n).
  { unfold decimal_value_of, truncated_thousandths. fold n.
    rewrite Hfp. reflexivity. }
  assert (Hres : truncated_thousandths n = Ok n
                 \/ truncated_thousandths n = Ok (n - 1)).
  { apply truncated_thousandths_within_one.
    pose proof (digits_value_nonneg (ip ++ fp)). unfold n. lia. }
  assert (Hdot : contains (lit ".") (ip ++ lit "." ++ fp) = true).
  { rewrite !contains_dot_app. change (contains (lit ".") (lit ".")) with true.
    now rewrite orb_true_r. }
  change (ip ++ lit "." ++ fp) with (ip ++ 46%N :: fp) in *.
  split.
  - unfold normalize_distance.
    rewrite (contains_dot_app ((ip ++ 46%N :: fp) ++ lit " ") unit),
      (contains_dot_app (ip ++ 46%N :: fp) (lit " ")), Hdot. cbn [orb].
    replace (drop_last 3 (((ip ++ 46%N :: fp) ++ lit " ") ++ unit))
      with ((ip ++ 46%N :: fp) ++ [32%N])
      by (rewrite <- Hunit; now rewrite drop_last_app).
    rewrite Hf2, Hval. exact Hres.
  - unfold normalize_price.
    rewrite (contains_dot_app prefix (ip ++ 46%N :: fp)), Hdot, orb_true_r.
    replace (drop_first 2 (prefix ++ ip ++ 46%N :: fp))
      with (ip ++ 46%N :: fp)
      by (rewrite <- Hprefix; now rewrite drop_first_app).
    rewrite Hf1, Hval. exact Hres.
Qed.

Lemma three_decimals_within_one_witness :
  (normalize_distance (((lit "1" ++ lit "." ++ lit "001") ++ lit " ") ++ km)
   = Ok 1001
   \/ normalize_distance (((lit "1" ++ lit "." ++ lit "001") ++ lit " ") ++ km)
      = Ok (1001 - 1))
  /\ (normalize_price ([euro; 32%N] ++ lit "1" ++ lit "." ++ lit "001")
      = Ok 1001
      \/ normalize_price ([euro; 32%N] ++ lit "1" ++ lit "." ++ lit "001")
         = Ok (1001 - 1)).
Proof.
  apply (three_decimals_within_one (lit "1") (lit "001") km [euro; 32%N]).
  - constructor; try discriminate; repeat constructor.
  - reflexivity.
  - reflexivity.
  - reflexivity.
  - vm_compute. reflexivity.
Defined.

(** ** What [get_last_page_number] returns *)

(** X17.  When [get_last_page_number] returns a number, the page has a
    pagination control of at least two lines, and the number is the
    integer on the line before the last, whatever its sign, or 2 when
    that line is not an integer. *)
Theorem get_last_page_number_returns (page : soup) (n : Z) :
  get_last_page_number page = Ok n ->
  exists t line,
    pagination_text page = Some t
    /\ (2 <= length (splitlines t))%nat
    /\ py_index (splitlines t) (-2) = Ok line
    /\ (int_of_str line = Ok n
        \/ (int_of_str line = Raise ValueError /\ n = 2)).
Proof.
  unfold get_last_page_number.
  destruct (pagination_text page) as [t|]; [|discriminate].
  destruct (py_index (splitlines t) (-2)) as [line|e] eqn:El; simpl.
  - intros H. exists t, line. repeat split; auto.
    + destruct (Nat.lt_ge_cases (length (splitlines t)) 2) as [Hl|Hl]; auto.
      rewrite py_index_out_of_range in El by lia. discriminate.
    + destruct (int_of_str line) as [m|e] eqn:En; simpl in H.
      * left. congruence.
      * pose proof (int_of_str_raises _ _ En) as ->. simpl in H.
        right. split; congruence.
  - pose proof (py_index_raises _ _ _ El) as ->. discriminate.
Qed.

Lemma get_last_page_number_returns_witness :
  exists t line,
    pagination_text page_counting_zero = Some t
    /\ (2 <= length (splitlines t))%nat
    /\ py_index (splitlines t) (-2) = Ok line
    /\ (int_of_str line = Ok 0
        \/ (int_of_str line = Raise ValueError /\ 0 = 2)).
Proof.
  apply (get_last_page_number_returns page_counting_zero 0).
  vm_compute. reflexivity.
Defined.
